(** * Automated accessibility checker: batch orchestration and report consolidation

    A shallow embedding of the server's export formatters, batch runner,
    CI bulk handler, report consolidation and executive-summary statistics,
    together with the properties of the specification that concern them.

    Source files embedded here:
    - the HTTP server (helper functions for JUnit and SARIF, the
      [/api/batch-test] background task, the [/api/ci/test-urls] and
      [/api/ci/test-url] handlers);
    - [ReportGenerator] (table optimisation: grouping and consolidated rows);
    - [PDFGenerator.calculateSummaryStats] (score, grade, recommendations);
    - [ScreenshotCapture.captureViolationScreenshots] (the entries of the
      captured nodes);
    - the command line (the file of URLs of [test-urls], the exit codes of
      [test-url] and [test-urls]).

    Conventions.  A JavaScript string is a [string]: a sequence of code
    units below 256.  A JavaScript number that holds a length or a counter
    is a [nat]; the one place where the source does fractional arithmetic
    (the score) uses the binary64 operations of [SpecFloat].  A function that
    can throw returns in the error monad [sum string]: [inl msg] is the
    thrown [TypeError], [inr v] the returned value. *)

From Stdlib Require Import String Ascii List Bool Arith ZArith Lia.
From Stdlib Require Import Permutation Sorted DecimalString DecimalNat.
From Stdlib Require Import Floats.SpecFloat.
From ExtLib Require Import Structures.Monad Data.Monads.EitherMonad.
Import ListNotations.
Import MonadNotation.

Local Open Scope string_scope.
Local Open Scope list_scope.
Local Open Scope monad_scope.

(* ===================================================================== *)
(** * The JavaScript fragment the sources rely on *)
(* ===================================================================== *)

Module Js.

(** A template literal: the concatenation of its pieces. *)
Definition template (parts : list string) : string :=
  String.concat EmptyString parts.

(** The double-quote character, which the templates of the sources use
    for attribute values. *)
Definition dq : string := String (ascii_of_nat 34) EmptyString.

(** The line feed that separates the lines of a multi-line template. *)
Definition nl : string := String (ascii_of_nat 10) EmptyString.

(** [n] spaces of indentation. *)
Fixpoint spaces (n : nat) : string :=
  match n with
  | O => EmptyString
  | S k => String " "%char (spaces k)
  end.

(** [String(n)] for a non-negative integer. *)
Definition numberToString (n : nat) : string :=
  NilEmpty.string_of_uint (Nat.to_uint n).

(** The values a field of the rule engine's output is read as when it is
    used as a property key or spliced into a template: [undefined],
    [null] or a string. *)
Inductive value : Type :=
| Undefined
| Null
| Str (s : string).

(** [ToString] on those values, as a template literal and a property
    access apply it. *)
Definition toString (v : value) : string :=
  match v with
  | Undefined => "undefined"
  | Null => "null"
  | Str s => s
  end.

(** The string-keyed members every object literal inherits from
    [Object.prototype].  Reading one of them on a literal that has no own
    property of that name yields a function (for [__proto__], the
    prototype object): a truthy value. *)
Definition objectPrototypeNames : list string :=
  [ "constructor"; "__defineGetter__"; "__defineSetter__";
    "hasOwnProperty"; "__lookupGetter__"; "__lookupSetter__";
    "isPrototypeOf"; "propertyIsEnumerable"; "toString"; "valueOf";
    "__proto__"; "toLocaleString" ].

Definition inheritedName (k : string) : bool :=
  existsb (String.eqb k) objectPrototypeNames.

(** Own properties of an object literal, in creation order. *)
Definition object (A : Type) : Type := list (string * A).

Fixpoint getOwn {A} (o : object A) (k : string) : option A :=
  match o with
  | [] => None
  | (k', v) :: rest => if String.eqb k k' then Some v else getOwn rest k
  end.

(** [s.replace(/c/g, by)] for a single character [c]. *)
Fixpoint replaceAllChar (c : ascii) (by_ : string) (s : string) : string :=
  match s with
  | EmptyString => EmptyString
  | String a rest =>
      if Ascii.eqb a c
      then by_ ++ replaceAllChar c by_ rest
      else String a (replaceAllChar c by_ rest)
  end.

(** The text before and after the first occurrence of [pat] in [s]. *)
Definition cut (pat s : string) : option (string * string) :=
  match String.index 0 pat s with
  | Some i =>
      let j := i + String.length pat in
      Some (String.substring 0 i s,
            String.substring j (String.length s - j) s)
  | None => None
  end.

(** [s.replace(pat, by)] for a string pattern: the first occurrence. *)
Definition replaceFirst (pat by_ s : string) : string :=
  match cut pat s with
  | Some (before, after) => before ++ by_ ++ after
  | None => s
  end.

(** ** Property order of [Object.values] and [Object.entries]

    Own keys that are array indices (canonical decimal numerals below
    [2^32 - 1]) come first, in ascending numeric order; the other keys
    follow in creation order. *)

Definition digitValue (c : ascii) : option N :=
  let n := nat_of_ascii c in
  if ((48 <=? n) && (n <=? 57))%nat then Some (N.of_nat (n - 48)) else None.

Fixpoint parseDigits (acc : N) (s : string) : option N :=
  match s with
  | EmptyString => Some acc
  | String c rest =>
      match digitValue c with
      | Some d => parseDigits (acc * 10 + d) rest
      | None => None
      end
  end.

Definition arrayIndex (key : string) : option N :=
  match key with
  | EmptyString => None
  | String c rest =>
      match digitValue c with
      | None => None
      | Some d =>
          if (d =? 0)%N
          then match rest with EmptyString => Some 0%N | _ => None end
          else match parseDigits d rest with
               | Some n => if (n <? 4294967295)%N then Some n else None
               | None => None
               end
      end
  end.

Fixpoint insertByIndex {A} (i : N) (e : A) (sorted : list (N * A))
    : list (N * A) :=
  match sorted with
  | [] => [(i, e)]
  | (j, w) :: rest =>
      if (i <=? j)%N then (i, e) :: sorted
      else (j, w) :: insertByIndex i e rest
  end.

(** The index-keyed properties of [o], ascending. *)
Fixpoint indexed {A} (o : object A) : list (N * (string * A)) :=
  match o with
  | [] => []
  | (k, v) :: rest =>
      match arrayIndex k with
      | Some i => insertByIndex i (k, v) (indexed rest)
      | None => indexed rest
      end
  end.

(** The other properties of [o], in creation order. *)
Fixpoint named {A} (o : object A) : list (string * A) :=
  match o with
  | [] => []
  | (k, v) :: rest =>
      match arrayIndex k with
      | Some _ => named rest
      | None => (k, v) :: named rest
      end
  end.

Definition objectEntries {A} (o : object A) : list (string * A) :=
  map snd (indexed o) ++ named o.

Definition objectValues {A} (o : object A) : list A :=
  map snd (objectEntries o).

(** ** Case mapping, on the letters of ASCII *)

Definition upperChar (c : ascii) : ascii :=
  let n := nat_of_ascii c in
  if ((97 <=? n) && (n <=? 122))%nat then ascii_of_nat (n - 32) else c.

Definition lowerChar (c : ascii) : ascii :=
  let n := nat_of_ascii c in
  if ((65 <=? n) && (n <=? 90))%nat then ascii_of_nat (n + 32) else c.

Fixpoint toLowerCase (s : string) : string :=
  match s with
  | EmptyString => EmptyString
  | String c rest => String (lowerChar c) (toLowerCase rest)
  end.

End Js.

(* ===================================================================== *)
(** * The rule engine's result, as the sources read it *)
(* ===================================================================== *)

Module Axe.

(** One affected DOM node: [target] selector and captured [html]. *)
Record Node : Type := mkNode {
  target : string;
  html : string
}.

(** One rule entry of [violations], [passes], [incomplete] or
    [inapplicable]. *)
Record Rule : Type := mkRule {
  id : string;
  description : string;
  help : string;
  helpUrl : string;
  impact : Js.value;
  tags : list string;
  nodes : list Node
}.

Record Results : Type := mkResults {
  violations : list Rule;
  passes : list Rule;
  incomplete : list Rule;
  inapplicable : list Rule
}.

End Axe.

(* ===================================================================== *)
(** * Export formatters of the server: JUnit and SARIF *)
(* ===================================================================== *)

Module ExportFormatters.
Import Js.

(** ** [escapeXml] *)

Definition escapeXml (text : string) : string :=
  replaceAllChar "'"%char "&apos;"
    (replaceAllChar (ascii_of_nat 34) "&quot;"
       (replaceAllChar ">"%char "&gt;"
          (replaceAllChar "<"%char "&lt;"
             (replaceAllChar "&"%char "&amp;" text)))).

(** ** [generateJUnitReport] *)

Record Failure : Type := mkFailure {
  message : string;
  type : string;
  text : string
}.

Record TestCase : Type := mkTestCase {
  classname : string;
  name : string;
  time : nat;
  failure : option Failure
}.

Record TestSuite : Type := mkTestSuite {
  suiteName : string;
  tests : nat;
  failures : nat;
  suiteTime : nat;
  testcases : list TestCase
}.

(** The test case built for one entry of [results.violations]. *)
Definition violationCase (violation : Axe.Rule) : TestCase :=
  {| classname := "accessibility.violations";
     name := template [Axe.id violation; " - "; Axe.description violation];
     time := 0;
     failure := Some
       {| message := template [toString (Axe.impact violation);
                               " violation: "; Axe.description violation];
          type := "AssertionError";
          text := template ["Violation found on ";
                            numberToString (length (Axe.nodes violation));
                            " element(s). Help: "; Axe.helpUrl violation] |}
  |}.

(** The test case built for one entry of [results.passes]. *)
Definition passCase (pass : Axe.Rule) : TestCase :=
  {| classname := "accessibility.passes";
     name := template [Axe.id pass; " - "; Axe.description pass];
     time := 0;
     failure := None |}.

(** [testSuites[0]] of [generateJUnitReport]. *)
Definition junitSuite (results : Axe.Results) : TestSuite :=
  {| suiteName := "Accessibility Tests";
     tests := length (Axe.violations results) + length (Axe.passes results);
     failures := length (Axe.violations results);
     suiteTime := 0;
     testcases := map violationCase (Axe.violations results)
                  ++ map passCase (Axe.passes results) |}.

(** The text emitted for one test case. *)
Definition testcaseXml (tc : TestCase) : string :=
  template
    [ nl; spaces 4; "<testcase classname="; dq; classname tc; dq;
      " name="; dq; name tc; dq; " time="; dq; numberToString (time tc); dq;
      ">"; nl; spaces 6;
      match failure tc with
      | Some f =>
          template [ "<failure message="; dq; escapeXml (message f); dq;
                     " type="; dq; type f; dq; ">"; escapeXml (text f);
                     "</failure>" ]
      | None => EmptyString
      end;
      nl; spaces 4; "</testcase>" ].

(** The document emitted for a suite. *)
Definition suiteXml (suite : TestSuite) : string :=
  template
    [ "<?xml version="; dq; "1.0"; dq; " encoding="; dq; "UTF-8"; dq; "?>";
      nl;
      "<testsuites name="; dq; "Accessibility Tests"; dq;
      " tests="; dq; numberToString (tests suite); dq;
      " failures="; dq; numberToString (failures suite); dq;
      " time="; dq; "0"; dq; ">"; nl;
      spaces 2; "<testsuite name="; dq; suiteName suite; dq;
      " tests="; dq; numberToString (tests suite); dq;
      " failures="; dq; numberToString (failures suite); dq;
      " time="; dq; "0"; dq; ">"; nl;
      spaces 4; template (map testcaseXml (testcases suite)); nl;
      spaces 2; "</testsuite>"; nl;
      "</testsuites>" ].

Definition generateJUnitReport (results : Axe.Results) (url : string)
    (wcagLevel : list string) : string :=
  suiteXml (junitSuite results).



(** ** [mapImpactToLevel] *)

(** What [mapImpactToLevel] can return: one of the strings of the table
    or the default, or the member of [Object.prototype] that the key
    names. *)
Inductive level : Type :=
| LevelString (s : string)
| LevelPrototypeMember (key : string).

Definition mapping : object string :=
  [ ("critical", "error"); ("serious", "error");
    ("moderate", "warning"); ("minor", "note") ].

(** [mapping[impact] || 'warning']: an own entry is a non-empty string,
    an inherited member is an object, both truthy; anything else reads
    [undefined] and falls to the default. *)
Definition mapImpactToLevel (impact : value) : level :=
  let key := toString impact in
  match getOwn mapping key with
  | Some l => LevelString l
  | None =>
      if inheritedName key then LevelPrototypeMember key
      else LevelString "warning"
  end.

(** ** [generateSARIFReport]: the [results] entries *)

Record SarifResult : Type := mkSarifResult {
  ruleId : string;
  messageText : string;
  resultLevel : level;
  locationUri : string;
  snippetText : string
}.

Definition sarifResults (results : Axe.Results) (url : string)
    : list SarifResult :=
  flat_map
    (fun violation =>
       map (fun node =>
              {| ruleId := Axe.id violation;
                 messageText := Axe.description violation;
                 resultLevel := mapImpactToLevel (Axe.impact violation);
                 locationUri := url;
                 snippetText := Axe.html node |})
           (Axe.nodes violation))
    (Axe.violations results).

End ExportFormatters.

(* ===================================================================== *)
(** * The batch runner: background task of [/api/batch-test] *)
(* ===================================================================== *)

Module BatchTest.
Import Js.

(** One entry of [batchProgress.results]: the [summary] of a tested URL
    or the [failedResult] of one whose audit threw. *)
Record Summary : Type := mkSummary {
  url : string;
  testId : string;
  summaryBatchId : string;
  timestamp : string;
  violations : nat;
  passes : nat;
  incomplete : nat;
  inapplicable : nat;
  reportUrl : option string;
  summaryStatus : string;
  summaryError : option string
}.

(** The [batchProgress] object a caller polls through
    [/api/batch-status/:batchId]. *)
Record BatchProgress : Type := mkBatchProgress {
  batchId : string;
  status : string;
  totalUrls : nat;
  completedUrls : nat;
  failedUrls : nat;
  results : list Summary;
  startTime : string;
  error : option string;
  endTime : option string
}.

Definition setStatus (s : string) (bp : BatchProgress) : BatchProgress :=
  {| batchId := batchId bp; status := s; totalUrls := totalUrls bp;
     completedUrls := completedUrls bp; failedUrls := failedUrls bp;
     results := results bp; startTime := startTime bp;
     error := error bp; endTime := endTime bp |}.

Definition setError (msg : string) (bp : BatchProgress) : BatchProgress :=
  {| batchId := batchId bp; status := status bp; totalUrls := totalUrls bp;
     completedUrls := completedUrls bp; failedUrls := failedUrls bp;
     results := results bp; startTime := startTime bp;
     error := Some msg; endTime := endTime bp |}.

Definition setEndTime (now : string) (bp : BatchProgress) : BatchProgress :=
  {| batchId := batchId bp; status := status bp; totalUrls := totalUrls bp;
     completedUrls := completedUrls bp; failedUrls := failedUrls bp;
     results := results bp; startTime := startTime bp;
     error := error bp; endTime := Some now |}.

(** [results.push(summary); completedUrls++] of the success path. *)
Definition recordSuccess (s : Summary) (bp : BatchProgress) : BatchProgress :=
  {| batchId := batchId bp; status := status bp; totalUrls := totalUrls bp;
     completedUrls := S (completedUrls bp); failedUrls := failedUrls bp;
     results := results bp ++ [s]; startTime := startTime bp;
     error := error bp; endTime := endTime bp |}.

(** [results.push(failedResult); failedUrls++; completedUrls++] of the
    [catch] path. *)
Definition recordFailure (s : Summary) (bp : BatchProgress) : BatchProgress :=
  {| batchId := batchId bp; status := status bp; totalUrls := totalUrls bp;
     completedUrls := S (completedUrls bp); failedUrls := S (failedUrls bp);
     results := results bp ++ [s]; startTime := startTime bp;
     error := error bp; endTime := endTime bp |}.

(** Where the background task is suspended.  Between two suspension
    points the task runs to completion, so a poller sees [batchProgress]
    only as it is at one of these points. *)
Inductive phase : Type :=
| Launching                (* awaiting [chromium.launch] / [newContext] *)
| Auditing (i : nat)       (* awaiting inside iteration [i] of the loop *)
| Closing                  (* awaiting the closes of the [finally] block *)
| Done.                    (* the task has returned *)

Record config : Type := mkConfig {
  progress : BatchProgress;
  at_ : phase
}.

(** What the environment answers at a suspension point. *)
Inductive event : Type :=
| Launched
    (* browser and context are open *)
| LaunchThrew (msg now : string)
    (* [chromium.launch] threw: [browser] and [context] stay [null] *)
| NewContextThrew (msg : string)
    (* [browser.newContext] threw: [browser] is open, [context] is [null] *)
| AuditReturned (testId now : string) (r : Axe.Results)
    (* every await of the [try] block of the iteration returned *)
| AuditThrew (msg now : string)
    (* some await of the [try] block of the iteration threw *)
| SessionClosed (now : string).
    (* the closes of the [finally] block are over *)

Section Run.
Variable PORT : string.
Variable theBatchId : string.
Variable urls : list string.
Variable started : string.

(** [batchProgress] as the handler creates it. *)
Definition initialProgress : BatchProgress :=
  {| batchId := theBatchId; status := "running";
     totalUrls := length urls; completedUrls := 0; failedUrls := 0;
     results := []; startTime := started;
     error := None; endTime := None |}.

Definition initial : config :=
  {| progress := initialProgress; at_ := Launching |}.

(** The [summary] of a tested URL. *)
Definition successSummary (u tid now : string) (r : Axe.Results) : Summary :=
  {| url := u; testId := tid; summaryBatchId := theBatchId;
     timestamp := now;
     violations := length (Axe.violations r);
     passes := length (Axe.passes r);
     incomplete := length (Axe.incomplete r);
     inapplicable := length (Axe.inapplicable r);
     reportUrl := Some (template ["http://localhost:"; PORT; "/reports/";
                                  tid; ".html"]);
     summaryStatus := "completed";
     summaryError := None |}.

(** The [failedResult] of a URL whose audit threw, at index [i]. *)
Definition failedResult (u : string) (i : nat) (msg now : string) : Summary :=
  {| url := u;
     testId := template [theBatchId; "_failed_"; numberToString i];
     summaryBatchId := theBatchId;
     timestamp := now;
     violations := 0; passes := 0; incomplete := 0; inapplicable := 0;
     reportUrl := None;
     summaryStatus := "failed";
     summaryError := Some msg |}.

(** The loop test and the head of iteration [i]: either the status
    becomes [Testing <url>] and the task waits for the audit, or the
    loop is over and the task waits in the [finally] block. *)
Definition enterIteration (i : nat) (bp : BatchProgress) : config :=
  match nth_error urls i with
  | Some u =>
      {| progress := setStatus (template ["Testing "; u]) bp;
         at_ := Auditing i |}
  | None => {| progress := bp; at_ := Closing |}
  end.

(** The tail of an iteration: [status = Completed c/t URLs]. *)
Definition completedStatus (bp : BatchProgress) : BatchProgress :=
  setStatus (template ["Completed "; numberToString (completedUrls bp);
                       "/"; numberToString (totalUrls bp); " URLs"]) bp.

(** The end of the [finally] block. *)
Definition finish (now : string) (bp : BatchProgress) : BatchProgress :=
  setEndTime now
    (setStatus (if Nat.eqb (failedUrls bp) (totalUrls bp) then "failed"
                else "completed") bp).

(** One run-to-completion segment of the task: from the suspension
    point of [c], on the answer [ev], to the next suspension point. *)
Definition next (c : config) (ev : event) : option config :=
  let bp := progress c in
  match at_ c, ev with
  | Launching, Launched => Some (enterIteration 0 bp)
  | Launching, LaunchThrew msg now =>
      Some {| progress := finish now (setError msg (setStatus "failed" bp));
              at_ := Done |}
  | Launching, NewContextThrew msg =>
      Some {| progress := setError msg (setStatus "failed" bp);
              at_ := Closing |}
  | Auditing i, AuditReturned tid now r =>
      match nth_error urls i with
      | Some u =>
          Some (enterIteration (S i)
                  (completedStatus
                     (recordSuccess (successSummary u tid now r) bp)))
      | None => None
      end
  | Auditing i, AuditThrew msg now =>
      match nth_error urls i with
      | Some u =>
          Some (enterIteration (S i)
                  (completedStatus
                     (recordFailure (failedResult u i msg now) bp)))
      | None => None
      end
  | Closing, SessionClosed now =>
      Some {| progress := finish now bp; at_ := Done |}
  | _, _ => None
  end.

(** The task driven by a sequence of answers. *)
Fixpoint run (c : config) (evs : list event) : option config :=
  match evs with
  | [] => Some c
  | ev :: rest =>
      match next c ev with
      | Some c' => run c' rest
      | None => None
      end
  end.

(** The configurations a poller can see. *)
Definition reachable (c : config) : Prop :=
  exists evs, run initial evs = Some c.

End Run.

(** What the audit of one URL answers, for a run that is described by
    its per-URL answers. *)
Inductive audit : Type :=
| Passed (testId now : string) (r : Axe.Results)
| Threw (msg now : string).

Definition auditEvent (a : audit) : event :=
  match a with
  | Passed tid now r => AuditReturned tid now r
  | Threw msg now => AuditThrew msg now
  end.

Definition threw (a : audit) : bool :=
  match a with Threw _ _ => true | Passed _ _ _ => false end.

(** A whole run whose session opens: the answers of the audits in input
    order, then the close. *)
Definition fullRun (audits : list audit) (endedAt : string) : list event :=
  Launched :: map auditEvent audits ++ [SessionClosed endedAt].

(** [batchProgress] when the task has returned, for a run whose session
    opens and whose audits answer [audits]. *)
Definition runBatch (PORT theBatchId : string) (urls : list string)
    (started : string) (audits : list audit) (endedAt : string)
    : option BatchProgress :=
  match run PORT theBatchId urls (initial theBatchId urls started)
            (fullRun audits endedAt) with
  | Some c => match at_ c with Done => Some (progress c) | _ => None end
  | None => None
  end.

End BatchTest.

(* ===================================================================== *)
(** * The CI bulk handler: [/api/ci/test-urls] *)
(* ===================================================================== *)

Module CiTestUrls.

(** The request body, after its defaults. *)
Record Options : Type := mkOptions {
  wcagLevel : list string;
  failOnViolations : bool;
  maxViolations : nat;
  continueOnFailure : bool
}.

(** One element of [violationDetails]. *)
Record Detail : Type := mkDetail {
  detailId : string;
  detailDescription : string;
  detailImpact : Js.value;
  detailNodes : nat
}.

(** One element of [results]: the entry of a tested URL, or the entry
    pushed by the [catch] of the iteration. *)
Inductive UrlResult : Type :=
| Tested (url : string) (success : bool) (violations passes incomplete : nat)
         (violationDetails : list Detail)
| Errored (url : string) (error : string).

Definition resultUrl (r : UrlResult) : string :=
  match r with
  | Tested u _ _ _ _ _ => u
  | Errored u _ => u
  end.

Definition success (r : UrlResult) : bool :=
  match r with
  | Tested _ s _ _ _ _ => s
  | Errored _ _ => false
  end.

(** What the [try] block of one iteration meets: the rule engine's
    result, or an exception from one of its awaits. *)
Inductive answer : Type :=
| Analyzed (testResults : Axe.Results)
| Raised (message : string).

Record ReportSummary : Type := mkReportSummary {
  totalUrls : nat;
  testedUrls : nat;
  passedUrls : nat;
  failedUrls : nat
}.

Record Body : Type := mkBody {
  bodySuccess : bool;
  timestamp : string;
  bodyWcagLevel : list string;
  summary : ReportSummary;
  results : list UrlResult
}.

Inductive response : Type :=
| BadRequest                           (* 400: URLs array is required *)
| ServerError (details : string)       (* 500: the outer [catch] *)
| Respond (httpStatus : nat) (body : Body).

Section Handler.
Variable opts : Options.

Definition urlSuccess (testResults : Axe.Results) : bool :=
  negb (failOnViolations opts)
  || (length (Axe.violations testResults) <=? maxViolations opts)%nat.

Definition detailOf (v : Axe.Rule) : Detail :=
  {| detailId := Axe.id v;
     detailDescription := Axe.description v;
     detailImpact := Axe.impact v;
     detailNodes := length (Axe.nodes v) |}.

(** The [for (const url of urls)] loop, with its two [break]s.  The
    state is the pair of [results] and [overallSuccess]. *)
Fixpoint loop (pages : list (string * answer))
    (acc : list UrlResult) (overallSuccess : bool)
    : list UrlResult * bool :=
  match pages with
  | [] => (acc, overallSuccess)
  | (url, Analyzed testResults) :: rest =>
      let ok := urlSuccess testResults in
      let overall := if ok then overallSuccess else false in
      let acc' :=
        acc ++ [Tested url ok
                  (length (Axe.violations testResults))
                  (length (Axe.passes testResults))
                  (length (Axe.incomplete testResults))
                  (map detailOf (Axe.violations testResults))] in
      if negb ok && negb (continueOnFailure opts)
      then (acc', overall)
      else loop rest acc' overall
  | (url, Raised message) :: rest =>
      let acc' := acc ++ [Errored url message] in
      if negb (continueOnFailure opts)
      then (acc', false)
      else loop rest acc' false
  end.

(** The handler.  [launchError] is the exception of opening the
    browser session, if any; [pages] pairs each requested URL with what
    its audit meets; [closeError] is the exception of
    [browser.close()], if any; [now] is the clock at the response. *)
Definition handle (launchError : option string)
    (pages : list (string * answer)) (closeError : option string)
    (now : string) : response :=
  match pages with
  | [] => BadRequest
  | _ :: _ =>
      match launchError with
      | Some msg => ServerError msg
      | None =>
          let '(rs, overallSuccess) := loop pages [] true in
          match closeError with
          | Some msg => ServerError msg
          | None =>
              Respond (if overallSuccess then 200 else 422)
                {| bodySuccess := overallSuccess;
                   timestamp := now;
                   bodyWcagLevel := wcagLevel opts;
                   summary :=
                     {| totalUrls := length pages;
                        testedUrls := length rs;
                        passedUrls := length (filter success rs);
                        failedUrls :=
                          length (filter (fun r => negb (success r)) rs) |};
                   results := rs |}
          end
      end
  end.

(** The audit of a URL fails: it throws, or its violations exceed the
    configured threshold. *)
Definition fails (a : answer) : bool :=
  match a with
  | Analyzed testResults => negb (urlSuccess testResults)
  | Raised _ => true
  end.

End Handler.

End CiTestUrls.

(* ===================================================================== *)
(** * Report consolidation: [ReportGenerator] *)
(* ===================================================================== *)

Module ReportGenerator.
Import Js.

(** ** String matching used by the regular expressions of the class

    Every pattern of the class is a chain of literals separated by lazy
    [[\s\S]*?] gaps, so a match takes the first occurrence of each
    literal after the previous one; [Js.cut] is one link of that chain. *)

(** White space of [trim()] and [\s], among code units below 256. *)
Definition isWhiteSpace (c : ascii) : bool :=
  let n := nat_of_ascii c in
  ((9 <=? n) && (n <=? 13) || (n =? 32) || (n =? 160))%nat.

Fixpoint trimStart (s : string) : string :=
  match s with
  | EmptyString => EmptyString
  | String c rest => if isWhiteSpace c then trimStart rest else s
  end.

Fixpoint trimEnd (s : string) : string :=
  match s with
  | EmptyString => EmptyString
  | String c rest =>
      match trimEnd rest with
      | EmptyString => if isWhiteSpace c then EmptyString
                       else String c EmptyString
      | kept => String c kept
      end
  end.

Definition trim (s : string) : string := trimEnd (trimStart s).

(** Line terminators, which [.] does not match. *)
Definition isLineTerminator (c : ascii) : bool :=
  let n := nat_of_ascii c in ((n =? 10) || (n =? 13))%nat.

Fixpoint hasLineTerminator (s : string) : bool :=
  match s with
  | EmptyString => false
  | String c rest => isLineTerminator c || hasLineTerminator rest
  end.

(** ** [extractFixInstructions]

    [/<td>[\s\S]*?<\/td>[\s\S]*?<td>([\s\S]*?)<\/td>/]: the content of
    the second [<td>] cell that follows a closed first one, trimmed; the
    empty string when the row has no such cell. *)
Definition fixInstructionsMatch (row : string) : option string :=
  match cut "<td>" row with
  | None => None
  | Some (_, r1) =>
      match cut "</td>" r1 with
      | None => None
      | Some (_, r2) =>
          match cut "<td>" r2 with
          | None => None
          | Some (_, r3) =>
              match cut "</td>" r3 with
              | None => None
              | Some (cell, _) => Some cell
              end
          end
      end
  end.

Definition extractFixInstructions (row : string) : string :=
  match fixInstructionsMatch row with
  | Some cell => trim cell
  | None => EmptyString
  end.

(** ** [extractElementInfo] *)

(** What [extractElementInfo] returns: the empty string when the row has
    no [<td>] cell, otherwise an object with [location] and [source]. *)
Inductive ElementInfo : Type :=
| NoCell
| Info (location source : string).

(** [<pre><code[^>]*>(.*?)<\/code><\/pre>] anchored at the head of [s]:
    the captured content and the text after the block. *)
Definition codeBlockAt (s : string) : option (string * string) :=
  if String.prefix "<pre><code" s then
    match cut ">" (String.substring 10 (String.length s - 10) s) with
    | None => None
    | Some (_, body) =>
        match cut "</code></pre>" body with
        | None => None
        | Some (content, after) =>
            if hasLineTerminator content then None
            else Some (content, after)
        end
    end
  else None.

(** The leftmost position of [s] at which the block pattern matches. *)
Fixpoint firstCodeBlock (s : string) : option (string * string) :=
  match codeBlockAt s with
  | Some found => Some found
  | None =>
      match s with
      | EmptyString => None
      | String _ rest => firstCodeBlock rest
      end
  end.

Definition extractElementInfo (row : string) : ElementInfo :=
  match cut "<td>" row with
  | None => NoCell
  | Some (_, r1) =>
      match cut "</td>" r1 with
      | None => NoCell
      | Some (cellContent, _) =>
          match firstCodeBlock cellContent with
          | None => Info EmptyString EmptyString
          | Some (location, after) =>
              match firstCodeBlock after with
              | None => Info location EmptyString
              | Some (source, _) => Info location source
              end
          end
      end
  end.

(** ** [groupSimilarViolations] *)

Record Group : Type := mkGroup {
  fixInstructions : string;
  rows : list string;
  elements : list ElementInfo;
  count : nat
}.

Definition emptyGroup (key : string) : Group :=
  {| fixInstructions := key; rows := []; elements := []; count := 0 |}.

(** [g.rows.push(row); g.elements.push(extractElementInfo(row)); g.count++] *)
Definition pushRow (row : string) (g : Group) : Group :=
  {| fixInstructions := fixInstructions g;
     rows := rows g ++ [row];
     elements := elements g ++ [extractElementInfo row];
     count := S (count g) |}.

(** [o[key] = f(o[key])] on an own property. *)
Fixpoint updateOwn {A} (o : object A) (key : string) (f : A -> A) : object A :=
  match o with
  | [] => []
  | (k, v) :: rest =>
      if String.eqb key k then (k, f v) :: rest
      else (k, v) :: updateOwn rest key f
  end.

(** The body of the [forEach]: the group of the row's key is created if
    [groups[key]] is falsy, then the row is pushed on [groups[key].rows].
    When the key names a member of [Object.prototype], [groups[key]] is
    that member: truthy, and without a [rows] array, so the push throws. *)
Definition addRow (groups : object Group) (row : string)
    : sum string (object Group) :=
  let key := extractFixInstructions row in
  match getOwn groups key with
  | Some _ => inr (updateOwn groups key (pushRow row))
  | None =>
      if inheritedName key
      then inl "TypeError: Cannot read properties of undefined (reading 'push')"
      else inr (updateOwn (groups ++ [(key, emptyGroup key)]) key (pushRow row))
  end.

Fixpoint addRows (groups : object Group) (rows : list string)
    : sum string (object Group) :=
  match rows with
  | [] => inr groups
  | row :: rest =>
      match addRow groups row with
      | inl e => inl e
      | inr groups' => addRows groups' rest
      end
  end.

Definition groupSimilarViolations (rows : list string)
    : sum string (list Group) :=
  match addRows [] rows with
  | inl e => inl e
  | inr groups => inr (objectValues groups)
  end.

(** ** [createConsolidatedRow] *)

Fixpoint mapThrowing {A B} (f : A -> sum string B) (l : list A)
    : sum string (list B) :=
  match l with
  | [] => ret []
  | a :: rest =>
      b <- f a ;;
      bs <- mapThrowing f rest ;;
      ret (b :: bs)
  end.

(** The text of one example element, from its [location] and [source]:
    the source is cut to its first 100 characters, followed by an
    ellipsis when it is longer. *)
Definition exampleBlock (location source : string) : string :=
  template
    [ nl; spaces 6;
      "<div style="; dq;
      "margin-bottom: 8px; padding: 4px; background: #f8f9fa; border-left: 2px solid #007bff;";
      dq; ">"; nl; spaces 8;
      "<div><strong>Location:</strong> <code>"; location;
      "</code></div>"; nl; spaces 8;
      "<div><strong>Element:</strong> <code>";
      String.substring 0 100 source;
      (if (100 <? String.length source)%nat then "..." else EmptyString);
      "</code></div>"; nl; spaces 6;
      "</div>"; nl; spaces 4 ].

(** The callback of [elements.map].  On the empty string that
    [extractElementInfo] returns for a row without cell, [el.source] is
    [undefined] and [el.source.substring] throws. *)
Definition elementBlock (el : ElementInfo) : sum string string :=
  match el with
  | NoCell =>
      inl "TypeError: Cannot read properties of undefined (reading 'substring')"
  | Info location source => inr (exampleBlock location source)
  end.

(** The [+ N more similar element(s)] line, present when [N > 0]. *)
Definition remainingText (remainingCount : Z) : string :=
  if (0 <? remainingCount)%Z then
    template
      [ "<div style="; dq;
        "margin-top: 8px; font-style: italic; color: #666;"; dq; ">";
        nl; spaces 8;
        "+ "; numberToString (Z.to_nat remainingCount);
        " more similar element";
        (if (1 <? remainingCount)%Z then "s" else EmptyString);
        nl; spaces 6; "</div>" ]
  else EmptyString.

(** The consolidated row around its example blocks and remainder line. *)
Definition consolidatedRow (count : nat) (elementsList remaining fixText : string)
    : string :=
  template
    [ nl; spaces 6; "<tr>"; nl; spaces 8;
      "<td><strong>"; numberToString count; "</strong></td>"; nl; spaces 8;
      "<td>"; nl; spaces 10;
      "<p><strong>Multiple similar violations ("; numberToString count;
      " elements)</strong></p>"; nl; spaces 10;
      "<div style="; dq; "max-height: 200px; overflow-y: auto;"; dq; ">";
      nl; spaces 12;
      elementsList; nl; spaces 12;
      remaining; nl; spaces 10;
      "</div>"; nl; spaces 8;
      "</td>"; nl; spaces 8;
      "<td>"; fixText; "</td>"; nl; spaces 6;
      "</tr>"; nl; spaces 4 ].

Definition createConsolidatedRow (group : Group) : sum string string :=
  let shown := firstn 3 (elements group) in
  let remainingCount := (Z.of_nat (count group) - 3)%Z in
  blocks <- mapThrowing elementBlock shown ;;
  ret (consolidatedRow (count group) (template blocks)
         (remainingText remainingCount) (fixInstructions group)).

(** ** [optimizeViolationTables]: rebuilding one table *)

(** The text appended to the table for one group. *)
Definition renderGroup (group : Group) : sum string string :=
  if (count group =? 1)%nat
  then ret (template ["<tr>"; nth 0 (rows group) "undefined"; "</tr>"])
  else createConsolidatedRow group.

Definition tableOpen : string :=
  template ["<table class="; dq; "table table-sm table-bordered"; dq; ">"].

(** The replacement of one matched table, from the rows found in it:
    [whole] is the matched text, [tableRows] the contents of its [<tr>]
    elements. *)
Definition optimizeTable (whole : string) (tableRows : list string)
    : sum string string :=
  match tableRows with
  | [] | [_] => ret whole
  | headerRow :: dataRows =>
      groupedRows <- groupSimilarViolations dataRows ;;
      rendered <- mapThrowing renderGroup groupedRows ;;
      ret (template [ tableOpen;
                      template ["<tr>"; headerRow; "</tr>"];
                      template rendered;
                      "</table>" ])
  end.

End ReportGenerator.

(* ===================================================================== *)
(** * Executive summary statistics: [PDFGenerator.calculateSummaryStats] *)
(* ===================================================================== *)

Module PDFGenerator.
Import Js.

(** ** Numbers of the score

    The score is the only fractional computation of the sources.  Its
    operands are array lengths, exactly representable; the division and
    the multiplication are those of binary64. *)

Definition prec : Z := 53.
Definition emax : Z := 1024.

Definition ofNat (n : nat) : spec_float :=
  binary_normalize prec emax (Z.of_nat n) 0 false.

(** What [Math.round] returns. *)
Inductive number : Type :=
| Finite (z : Z)
| NaN
| Infinite (negative : bool).

(** [floor(v * 2^e + 1/2)]: the nearest integer, a tie going up. *)
Definition roundHalfUp (v e : Z) : Z :=
  if (0 <=? e)%Z then (v * 2 ^ e)%Z
  else ((2 * v + 2 ^ (- e)) / 2 ^ (1 - e))%Z.

Definition mathRound (x : spec_float) : number :=
  match x with
  | S754_zero _ => Finite 0
  | S754_infinity s => Infinite s
  | S754_nan => NaN
  | S754_finite s m e => Finite (roundHalfUp (cond_Zopp s (Zpos m)) e)
  end.

(** [x >= k] for an integer [k]. *)
Definition geq (x : number) (k : Z) : bool :=
  match x with
  | Finite z => (k <=? z)%Z
  | NaN => false
  | Infinite negative => negb negative
  end.

(** ** Totals *)

Definition totalRules (results : Axe.Results) : nat :=
  length (Axe.violations results) + length (Axe.passes results)
  + length (Axe.incomplete results) + length (Axe.inapplicable results).

Definition totalViolations (results : Axe.Results) : nat :=
  fold_left (fun sum v => sum + length (Axe.nodes v))
            (Axe.violations results) 0.

(** ** Severity counts *)

Record SeverityCounts : Type := mkSeverityCounts {
  critical : nat;
  serious : nat;
  moderate : nat;
  minor : nat
}.

Definition noSeverity : SeverityCounts :=
  {| critical := 0; serious := 0; moderate := 0; minor := 0 |}.

(** A number is truthy when it is not zero. *)
Definition truthy (n : nat) : bool := negb (n =? 0)%nat.

(** The body of the first [forEach]:
    [if (severityCounts[impact]) severityCounts[impact] += nodes.length].
    The test reads the current count.  On any other key the four
    counters are not touched (an inherited name makes the [+=] write a
    property of that name, which this record does not hold). *)
Definition countSeverity (sc : SeverityCounts) (violation : Axe.Rule)
    : SeverityCounts :=
  let key := toString (Axe.impact violation) in
  let n := length (Axe.nodes violation) in
  if String.eqb key "critical" then
    if truthy (critical sc)
    then {| critical := critical sc + n; serious := serious sc;
            moderate := moderate sc; minor := minor sc |}
    else sc
  else if String.eqb key "serious" then
    if truthy (serious sc)
    then {| critical := critical sc; serious := serious sc + n;
            moderate := moderate sc; minor := minor sc |}
    else sc
  else if String.eqb key "moderate" then
    if truthy (moderate sc)
    then {| critical := critical sc; serious := serious sc;
            moderate := moderate sc + n; minor := minor sc |}
    else sc
  else if String.eqb key "minor" then
    if truthy (minor sc)
    then {| critical := critical sc; serious := serious sc;
            moderate := moderate sc; minor := minor sc + n |}
    else sc
  else sc.

Definition severityCounts (results : Axe.Results) : SeverityCounts :=
  fold_left countSeverity (Axe.violations results) noSeverity.

(** ** Score and grade *)

(** [totalRules > 0 ? Math.round((passedTests / totalRules) * 100) : 100] *)
Definition scoreOf (passedTests totalRules : nat) : number :=
  if (0 <? totalRules)%nat
  then mathRound
         (SFmul prec emax
            (SFdiv prec emax (ofNat passedTests) (ofNat totalRules))
            (ofNat 100))
  else Finite 100.

Definition score (results : Axe.Results) : number :=
  scoreOf (length (Axe.passes results)) (totalRules results).

Definition gradeOf (s : number) : string :=
  if geq s 95 then "Excellent"
  else if geq s 85 then "Good"
  else if geq s 70 then "Fair"
  else "Needs Improvement".

Definition grade (results : Axe.Results) : string := gradeOf (score results).

(** ** Top categories *)

(** The category a tag names: [tag.replace('cat.', '').replace('-', ' ')]
    for a tag that starts with [cat.]. *)
Definition categoryOf (tag : string) : option string :=
  if String.prefix "cat." tag
  then Some (replaceFirst "-" " " (replaceFirst "cat." EmptyString tag))
  else None.

(** [categories[category] = (categories[category] || 0) + 1].  The model
    covers the categories that are not named like a member of
    [Object.prototype]: for such a name the entry would hold a string
    instead of a count, and the order the comparator of the sort then
    gives is left to the implementation; [None] marks that case. *)
Definition countCategory (categories : object nat) (category : string)
    : option (object nat) :=
  match getOwn categories category with
  | Some n => Some (map (fun kv => if String.eqb category (fst kv)
                                   then (fst kv, snd kv + 1) else kv)
                        categories)
  | None =>
      if inheritedName category then None
      else Some (categories ++ [(category, 1)])
  end.

Fixpoint countTags (categories : object nat) (tags : list string)
    : option (object nat) :=
  match tags with
  | [] => Some categories
  | tag :: rest =>
      match categoryOf tag with
      | None => countTags categories rest
      | Some category =>
          match countCategory categories category with
          | Some categories' => countTags categories' rest
          | None => None
          end
      end
  end.

Fixpoint countViolations (categories : object nat) (vs : list Axe.Rule)
    : option (object nat) :=
  match vs with
  | [] => Some categories
  | v :: rest =>
      match countTags categories (Axe.tags v) with
      | Some categories' => countViolations categories' rest
      | None => None
      end
  end.

(** [sort(([,a], [,b]) => b - a)]: stable, by descending count. *)
Fixpoint insertDescending (e : string * nat) (sorted : list (string * nat))
    : list (string * nat) :=
  match sorted with
  | [] => [e]
  | f :: rest =>
      if (snd e <? snd f)%nat then f :: insertDescending e rest
      else e :: sorted
  end.

Definition sortDescending (l : list (string * nat)) : list (string * nat) :=
  fold_right insertDescending [] l.

Record Category : Type := mkCategory {
  category : string;
  issues : nat
}.

(** [category.charAt(0).toUpperCase() + category.slice(1)] *)
Definition capitalize (s : string) : string :=
  match s with
  | EmptyString => EmptyString
  | String c rest => String (upperChar c) rest
  end.

Definition topCategories (results : Axe.Results) : option (list Category) :=
  match countViolations [] (Axe.violations results) with
  | None => None
  | Some categories =>
      Some (map (fun e => {| category := capitalize (fst e);
                             issues := snd e |})
                (firstn 5 (sortDescending (objectEntries categories))))
  end.

(** ** Recommendations *)

Definition urgentLine (n : nat) : string :=
  template ["Address "; numberToString n;
            " critical accessibility issues immediately"].

Definition seriousLine (n : nat) : string :=
  template ["Fix "; numberToString n;
            " serious violations that impact user experience"].

Definition manualReviewLine (n : nat) : string :=
  template ["Review "; numberToString n;
            " incomplete tests that require manual verification"].

Definition focusLine (c : Category) : string :=
  template ["Focus on "; toLowerCase (category c); " improvements (";
            numberToString (issues c); " issues)"].

Definition positiveLine : string :=
  "Great job! Continue monitoring for accessibility regressions".

Definition recommend (sc : SeverityCounts) (incompleteCount : nat)
    (top : list Category) : list string :=
  let r1 := if (0 <? critical sc)%nat then [urgentLine (critical sc)] else [] in
  let r2 := r1 ++ (if (0 <? serious sc)%nat
                   then [seriousLine (serious sc)] else []) in
  let r3 := r2 ++ (if (0 <? incompleteCount)%nat
                   then [manualReviewLine incompleteCount] else []) in
  let r4 := r3 ++ (match top with
                   | first :: _ => [focusLine first]
                   | [] => []
                   end) in
  match r4 with
  | [] => [positiveLine]
  | _ :: _ => r4
  end.

(** ** [calculateSummaryStats] *)

Record SummaryStats : Type := mkSummaryStats {
  statTotalRules : nat;
  statTotalViolations : nat;
  statSeverityCounts : SeverityCounts;
  statScore : number;
  statGrade : string;
  statTopCategories : list Category;
  recommendations : list string
}.

Definition calculateSummaryStats (results : Axe.Results)
    : option SummaryStats :=
  match topCategories results with
  | None => None
  | Some top =>
      Some {| statTotalRules := totalRules results;
              statTotalViolations := totalViolations results;
              statSeverityCounts := severityCounts results;
              statScore := score results;
              statGrade := grade results;
              statTopCategories := top;
              recommendations :=
                recommend (severityCounts results)
                          (length (Axe.incomplete results)) top |}
  end.

End PDFGenerator.

(* ===================================================================== *)
(** * The specification's own formulas *)
(* ===================================================================== *)

Module Spec.

(** The impact-to-level table as the specification words it:
    critical and serious give [error], moderate gives [warning], minor
    gives [note], anything else [warning]. *)
Definition level (impact : Js.value) : string :=
  let key := Js.toString impact in
  if String.eqb key "critical" then "error"
  else if String.eqb key "serious" then "error"
  else if String.eqb key "moderate" then "warning"
  else if String.eqb key "minor" then "note"
  else "warning".

(** [round(100 * passes / total)] over the rationals, a tie going up. *)
Definition exactScore (passes total : nat) : Z :=
  ((200 * Z.of_nat passes + Z.of_nat total) / (2 * Z.of_nat total))%Z.

(** [100 * passes / total] lies exactly halfway between two integers. *)
Definition tie (passes total : nat) : bool :=
  ((200 * Z.of_nat passes) mod (2 * Z.of_nat total) =? Z.of_nat total)%Z.

(** The number of violation nodes of a given impact. *)
Definition nodesOfImpact (impact : string) (results : Axe.Results) : nat :=
  list_sum
    (map (fun v => length (Axe.nodes v))
         (filter (fun v => String.eqb (Js.toString (Axe.impact v)) impact)
                 (Axe.violations results))).

(** The remainder line of a consolidated row for [n] elements that are
    not shown. *)
Definition moreLine (n : nat) : string :=
  Js.template
    [ "<div style="; Js.dq;
      "margin-top: 8px; font-style: italic; color: #666;"; Js.dq; ">";
      Js.nl; Js.spaces 8;
      "+ "; Js.numberToString n; " more similar element";
      (if (1 <? n)%nat then "s" else EmptyString);
      Js.nl; Js.spaces 6; "</div>" ].

End Spec.

(* ===================================================================== *)
(** * Invariants and sample inputs used by the proofs *)
(* ===================================================================== *)

Module Samples.

(** A result with one violation on two nodes. *)
Definition twoNodeViolation : Axe.Results :=
  {| Axe.violations :=
       [ {| Axe.id := "image-alt";
            Axe.description := "Images must have alternate text";
            Axe.help := "Images must have alternate text";
            Axe.helpUrl := "https://dequeuniversity.com/rules/axe/4.10/image-alt";
            Axe.impact := Js.Str "critical";
            Axe.tags := ["cat.text-alternatives"; "wcag2a"];
            Axe.nodes := [ {| Axe.target := "img.logo"; Axe.html := "<img>" |};
                           {| Axe.target := "img.hero"; Axe.html := "<img>" |} ] |} ];
     Axe.passes := []; Axe.incomplete := []; Axe.inapplicable := [] |}.

(** Scenario A of the specification: three URLs, the audit of the
    second one throws a navigation timeout. *)
Definition scenarioUrls : list string :=
  [ "https://example.org/"; "https://example.org/slow";
    "https://example.org/about" ].

Definition noFindings : Axe.Results :=
  {| Axe.violations := []; Axe.passes := [];
     Axe.incomplete := []; Axe.inapplicable := [] |}.

Definition scenarioAudits : list BatchTest.audit :=
  [ BatchTest.Passed "b1_t1" "2025-01-01T00:00:01.000Z" noFindings;
    BatchTest.Threw "page.goto: Timeout 30000ms exceeded."
                    "2025-01-01T00:00:31.000Z";
    BatchTest.Passed "b1_t3" "2025-01-01T00:00:32.000Z" noFindings ].

Definition scenarioRun : option BatchTest.BatchProgress :=
  BatchTest.runBatch "3001" "b1" scenarioUrls "2025-01-01T00:00:00.000Z"
    scenarioAudits "2025-01-01T00:00:33.000Z".

(** The same run, seen while the third URL is being audited. *)
Definition scenarioMidRun : list BatchTest.event :=
  [ BatchTest.Launched;
    BatchTest.AuditReturned "b1_t1" "2025-01-01T00:00:01.000Z" noFindings;
    BatchTest.AuditThrew "page.goto: Timeout 30000ms exceeded."
                         "2025-01-01T00:00:31.000Z" ].

End Samples.

Module BatchInvariant.
Import BatchTest.

(** An entry pushed by the [catch] path. *)
Definition failedEntry (s : Summary) : bool :=
  String.eqb (summaryStatus s) "failed".

(** What holds of [batchProgress] at every suspension point of the task
    for the request [urls]. *)
Record consistent (urls : list string) (c : config) : Prop := mkConsistent {
  total_is_request : totalUrls (progress c) = length urls;
  completed_is_outcomes :
    completedUrls (progress c) = length (results (progress c));
  failed_is_failed_outcomes :
    failedUrls (progress c)
    = length (filter failedEntry (results (progress c)));
  outcomes_in_order :
    map url (results (progress c))
    = firstn (length (results (progress c))) urls;
  outcomes_bounded : length (results (progress c)) <= length urls;
  phase_agrees :
    match at_ c with
    | Launching => results (progress c) = []
    | Auditing i => i = length (results (progress c)) /\ i < length urls
    | Closing => True
    | Done =>
        status (progress c)
        = if Nat.eqb (failedUrls (progress c)) (totalUrls (progress c))
          then "failed" else "completed"
    end
}.

End BatchInvariant.

Module CiInvariant.
Import CiTestUrls.

(** The entry the loop pushes for a page. *)
Definition entryOf (opts : Options) (page : string * answer) : UrlResult :=
  match page with
  | (url, Analyzed testResults) =>
      Tested url (urlSuccess opts testResults)
        (length (Axe.violations testResults))
        (length (Axe.passes testResults))
        (length (Axe.incomplete testResults))
        (map (detailOf) (Axe.violations testResults))
  | (url, Raised message) => Errored url message
  end.

(** A bulk request of three URLs whose second audit throws. *)
Definition stopOptions : Options :=
  {| wcagLevel := ["wcag2a"; "wcag2aa"]; failOnViolations := true;
     maxViolations := 0; continueOnFailure := false |}.

Definition threePages : list (string * answer) :=
  [ ("https://example.org/", Analyzed Samples.noFindings);
    ("https://example.org/slow", Raised "page.goto: Timeout 30000ms exceeded.");
    ("https://example.org/about", Analyzed Samples.noFindings) ].

End CiInvariant.

Module ScoreCheck.
Import PDFGenerator.

(** A rule entry with [n] affected nodes and no tags. *)
Definition someRule (impact : Js.value) (n : nat) : Axe.Rule :=
  {| Axe.id := "rule"; Axe.description := "description";
     Axe.help := "help"; Axe.helpUrl := "https://dequeuniversity.com/rules";
     Axe.impact := impact; Axe.tags := [];
     Axe.nodes := repeat {| Axe.target := "div"; Axe.html := "<div>" |} n |}.


(** Scenario C of the specification: no violation, fifty passed rules. *)
Definition fiftyPasses : Axe.Results :=
  {| Axe.violations := [];
     Axe.passes := repeat (someRule Js.Null 0) 50;
     Axe.incomplete := []; Axe.inapplicable := [] |}.

(** The score of [passed] out of [total] is an integer, at most one
    below the exact rounding, and equal to it away from ties. *)
Definition scoreAgrees (total passed : nat) : bool :=
  match scoreOf passed total with
  | Finite z =>
      ((Spec.exactScore passed total - 1 <=? z)
       && (z <=? Spec.exactScore passed total)
       && (Spec.tie passed total || (z =? Spec.exactScore passed total)))%Z
  | _ => false
  end.

Definition scoresAgreeUpTo (bound : nat) : bool :=
  forallb (fun total => forallb (scoreAgrees total) (seq 0 (S total)))
          (seq 1 bound).

End ScoreCheck.

Module GroupInvariant.
Import Js ReportGenerator.

(** The group object that holds the rows [rs] under the key [key]. *)
Definition groupOf (key : string) (rs : list string) : Group :=
  {| fixInstructions := key;
     rows := rs;
     elements := map extractElementInfo rs;
     count := length rs |}.

(** The rows of a group object were pushed one by one under its key. *)
Definition keyed (from : string -> Prop) (kv : string * Group) : Prop :=
  inheritedName (fst kv) = false
  /\ snd kv = groupOf (fst kv) (rows (snd kv))
  /\ rows (snd kv) <> []
  /\ Forall (fun r => extractFixInstructions r = fst kv /\ from r)
            (rows (snd kv)).

(** What holds of the [groups] object throughout the [forEach]: its keys
    are distinct and every entry is [keyed]. *)
Definition grouped (from : string -> Prop) (o : object Group) : Prop :=
  NoDup (map fst o) /\ Forall (keyed from) o.

(** The row has a first [<td>] cell, so that [extractElementInfo]
    returns an object. *)
Definition hasCell (row : string) : bool :=
  match extractElementInfo row with
  | NoCell => false
  | Info _ _ => true
  end.

(** The key of the row does not name a member of [Object.prototype]. *)
Definition plainKey (row : string) : bool :=
  negb (inheritedName (extractFixInstructions row)).

(** Five rows of a violation table: element cell, then fix cell.  Four
    of them share their fix instructions. *)
Definition sampleRow (selector fixText : string) : string :=
  template [ "<td><pre><code>"; selector; "</code></pre>";
             "<pre><code>&lt;img&gt;</code></pre></td>";
             "<td>"; fixText; "</td>" ].

Definition sampleRows : list string :=
  [ sampleRow "img.logo" "Add an alt attribute";
    sampleRow "a.more" "Give the link a discernible name";
    sampleRow "img.hero" "Add an alt attribute";
    sampleRow "img.team" "Add an alt attribute";
    sampleRow "img.map" "Add an alt attribute" ].

Definition altGroup : Group :=
  groupOf "Add an alt attribute"
    [ sampleRow "img.logo" "Add an alt attribute";
      sampleRow "img.hero" "Add an alt attribute";
      sampleRow "img.team" "Add an alt attribute";
      sampleRow "img.map" "Add an alt attribute" ].

Definition linkGroup : Group :=
  groupOf "Give the link a discernible name"
    [ sampleRow "a.more" "Give the link a discernible name" ].

(** Scenario B of the specification: one rule that fires on seven nodes
    with the same remediation text. *)
Definition sevenRows : list string :=
  map (fun selector => sampleRow selector "Add an alt attribute")
      [ "img.a"; "img.b"; "img.c"; "img.d"; "img.e"; "img.f"; "img.g" ].

End GroupInvariant.

(* ===================================================================== *)
(** * Further definitions: what the proofs below speak about *)
(* ===================================================================== *)

Module XmlEscaping.

(** The entity [escapeXml] writes for one character, or the character
    itself. *)
Definition escapeChar (c : ascii) : string :=
  if Ascii.eqb c "&"%char then "&amp;"
  else if Ascii.eqb c "<"%char then "&lt;"
  else if Ascii.eqb c ">"%char then "&gt;"
  else if Ascii.eqb c (ascii_of_nat 34) then "&quot;"
  else if Ascii.eqb c "'"%char then "&apos;"
  else String c EmptyString.

(** One pass over the text that escapes each character on its own. *)
Fixpoint escapeEach (s : string) : string :=
  match s with
  | EmptyString => EmptyString
  | String c rest => escapeChar c ++ escapeEach rest
  end.

(** The characters that end or open markup, or close an attribute. *)
Definition markupChar (c : ascii) : bool :=
  Ascii.eqb c "<"%char || Ascii.eqb c ">"%char
  || Ascii.eqb c (ascii_of_nat 34) || Ascii.eqb c "'"%char.

Fixpoint noMarkupChar (s : string) : bool :=
  match s with
  | EmptyString => true
  | String c rest => negb (markupChar c) && noMarkupChar rest
  end.

(** The text that follows an ampersand names one of the five entities. *)
Definition entityFollows (s : string) : bool :=
  String.prefix "amp;" s || String.prefix "lt;" s || String.prefix "gt;" s
  || String.prefix "quot;" s || String.prefix "apos;" s.

(** Every ampersand of the text opens an entity. *)
Fixpoint ampersandsOpenEntities (s : string) : bool :=
  match s with
  | EmptyString => true
  | String c rest =>
      (if Ascii.eqb c "&"%char then entityFollows rest else true)
      && ampersandsOpenEntities rest
  end.

End XmlEscaping.

Module Sarif.
Import Js ExportFormatters.

(** One element of [runs[0].tool.driver.rules]. *)
Record SarifRule : Type := mkSarifRule {
  sarifRuleId : string;
  shortDescription : string;
  fullDescription : string;
  helpUri : string;
  ruleTags : list string;
  ruleImpact : value
}.

(** [results.violations.map(violation => ({ id, ... }))] *)
Definition sarifRules (results : Axe.Results) : list SarifRule :=
  map (fun violation =>
         {| sarifRuleId := Axe.id violation;
            shortDescription := Axe.description violation;
            fullDescription := Axe.help violation;
            helpUri := Axe.helpUrl violation;
            ruleTags := Axe.tags violation;
            ruleImpact := Axe.impact violation |})
      (Axe.violations results).

(** The document [generateSARIFReport] returns: its version, the tool
    driver with its rules, and the results. *)
Record SarifReport : Type := mkSarifReport {
  version : string;
  schema : string;
  driverName : string;
  driverVersion : string;
  informationUri : string;
  rules : list SarifRule;
  results : list SarifResult
}.

Definition generateSARIFReport (axe : Axe.Results) (url : string)
    (wcagLevel : list string) : SarifReport :=
  {| version := "2.1.0";
     schema := "https://json.schemastore.org/sarif-2.1.0.json";
     driverName := "axe-core";
     driverVersion := "4.10.0";
     informationUri := "https://www.deque.com/axe/";
     rules := sarifRules axe;
     results := sarifResults axe url |}.

End Sarif.

Module BatchSession.
Import BatchTest.

(** The run ended, or will end, without a browser session: the outer
    [catch] recorded the error and no URL was attempted. *)
Definition sessionFailed (bp : BatchProgress) : Prop :=
  exists msg, error bp = Some msg /\ results bp = [].

(** The loop is over: every requested URL has its outcome and the outer
    [catch] was not entered. *)
Definition allProcessed (urls : list string) (bp : BatchProgress) : Prop :=
  error bp = None /\ length (results bp) = length urls.

(** How the [error] and [endTime] fields go with the suspension point. *)
Definition sessionShape (urls : list string) (c : config) : Prop :=
  match at_ c with
  | Launching => error (progress c) = None /\ endTime (progress c) = None
  | Auditing _ => error (progress c) = None /\ endTime (progress c) = None
  | Closing =>
      endTime (progress c) = None
      /\ (allProcessed urls (progress c) \/ sessionFailed (progress c))
  | Done =>
      (exists t, endTime (progress c) = Some t)
      /\ (allProcessed urls (progress c) \/ sessionFailed (progress c))
  end.

End BatchSession.

Module Categories.



End Categories.

(* ===================================================================== *)
(** * The command line: the file of URLs *)
(* ===================================================================== *)

Module UrlFile.
Import Js ReportGenerator.

(** [content.split('\n')]: the pieces between line feeds; a content
    without line feed is one piece. *)
Fixpoint splitLines (content : string) : list string :=
  match content with
  | EmptyString => [EmptyString]
  | String c rest =>
      if Ascii.eqb c "010"%char
      then EmptyString :: splitLines rest
      else match splitLines rest with
           | line :: lines => String c line :: lines
           | [] => [String c EmptyString]
           end
  end.

(** A string is truthy unless it is empty. *)
Definition truthy (s : string) : bool :=
  match s with
  | EmptyString => false
  | String _ _ => true
  end.

(** [urlsContent.split('\n').filter(url => url.trim()).map(url => url.trim())] *)
Definition parseUrls (urlsContent : string) : list string :=
  map trim (filter (fun url => truthy (trim url)) (splitLines urlsContent)).

(** The URLs of the file, or the error thrown when it holds none. *)
Definition readUrls (urlsContent : string) : sum string (list string) :=
  match parseUrls urlsContent with
  | [] => inl "No URLs found in file"
  | urls => inr urls
  end.

(** A file written with one URL per line. *)
Definition joinLines (urls : list string) : string :=
  String.concat nl urls.

(** Every code unit of [s] is white space. *)
Fixpoint blank (s : string) : bool :=
  match s with
  | EmptyString => true
  | String c rest => isWhiteSpace c && blank rest
  end.

(** [s] holds no line feed. *)
Fixpoint oneLine (s : string) : bool :=
  match s with
  | EmptyString => true
  | String c rest => negb (Ascii.eqb c "010"%char) && oneLine rest
  end.

(** What a line of the file can stand for: a non-empty piece of text
    that neither starts nor ends with white space and holds no line
    feed. *)
Definition clean (url : string) : bool :=
  truthy url && String.eqb (trim url) url && oneLine url.

End UrlFile.

(* ===================================================================== *)
(** * [ScreenshotCapture.captureViolationScreenshots] *)
(* ===================================================================== *)

Module ScreenshotCapture.
Import Js.

(** One element of [violationScreenshots]. *)
Record Screenshot : Type := mkScreenshot {
  violationIndex : nat;
  nodeIndex : nat;
  shotRuleId : string;
  shotImpact : value;
  shotDescription : string;
  element : string;
  screenshot : string;
  fullPath : string
}.

Record ScreenshotData : Type := mkScreenshotData {
  fullPageScreenshot : string;
  violationScreenshots : list Screenshot
}.

(** [`violation-${violationIndex + 1}-node-${nodeIndex + 1}.png`] *)
Definition screenshotName (violationIndex nodeIndex : nat) : string :=
  template [ "violation-"; numberToString (violationIndex + 1);
             "-node-"; numberToString (nodeIndex + 1); ".png" ].

Section Capture.

(** [path.join] of the platform's library. *)
Variable pathJoin : list string -> string.

(** Whether [captureElementScreenshot] returns the path of a saved
    image for the node at [nodeIndex] of the violation at
    [violationIndex] (both counted from 0).  It returns [null] when the
    element is not visible or has no bounding box, and when a step of the
    capture throws. *)
Variable captured : nat -> nat -> bool.

Variables testId baseDir : string.

Definition screenshotDir : string :=
  pathJoin [baseDir; "screenshots"; testId].

(** The entry pushed for a captured node.  [Axe.target] is the node's
    first selector, [node.target[0]]. *)
Definition entry (violation : Axe.Rule) (violationIndex : nat)
    (node : Axe.Node) (nodeIndex : nat) : Screenshot :=
  let name := screenshotName violationIndex nodeIndex in
  {| violationIndex := violationIndex + 1;
     nodeIndex := nodeIndex + 1;
     shotRuleId := Axe.id violation;
     shotImpact := Axe.impact violation;
     shotDescription := Axe.description violation;
     element := Axe.target node;
     screenshot := template ["/reports/screenshots/"; testId; "/"; name];
     fullPath := pathJoin [screenshotDir; name] |}.

(** The inner loop, from [nodeIndex] on; [screenshotData] is the array
    the entries are pushed to. *)
Fixpoint nodeLoop (violation : Axe.Rule) (violationIndex : nat)
    (nodes : list Axe.Node) (nodeIndex : nat)
    (screenshotData : list Screenshot) : list Screenshot :=
  match nodes with
  | [] => screenshotData
  | node :: rest =>
      nodeLoop violation violationIndex rest (S nodeIndex)
        (if captured violationIndex nodeIndex
         then screenshotData ++ [entry violation violationIndex node nodeIndex]
         else screenshotData)
  end.

(** The outer loop, from [violationIndex] on. *)
Fixpoint violationLoop (violations : list Axe.Rule) (violationIndex : nat)
    (screenshotData : list Screenshot) : list Screenshot :=
  match violations with
  | [] => screenshotData
  | violation :: rest =>
      violationLoop rest (S violationIndex)
        (nodeLoop violation violationIndex (Axe.nodes violation) 0
                  screenshotData)
  end.

(** [setupError] is the exception of creating the directory or of the
    full-page screenshot, if any: the method then throws it. *)
Definition captureViolationScreenshots (setupError : option string)
    (results : Axe.Results) : sum string ScreenshotData :=
  match setupError with
  | Some message => inl message
  | None =>
      inr {| fullPageScreenshot :=
               template ["/reports/screenshots/"; testId; "/full-page.png"];
             violationScreenshots :=
               violationLoop (Axe.violations results) 0 [] |}
  end.

End Capture.

(** [s] holds no code unit [c]. *)
Fixpoint lacks (c : ascii) (s : string) : bool :=
  match s with
  | EmptyString => true
  | String a rest => negb (Ascii.eqb a c) && lacks c rest
  end.

(** Entries in the order of the loops: by violation, then by node. *)
Definition before (a b : Screenshot) : Prop :=
  violationIndex a < violationIndex b
  \/ (violationIndex a = violationIndex b /\ nodeIndex a < nodeIndex b).

End ScreenshotCapture.

(* ===================================================================== *)
(** * The CI handler of one URL: [/api/ci/test-url] *)
(* ===================================================================== *)

Module CiTestUrl.
Import Js ExportFormatters Sarif.

(** The request body besides [url], after its defaults. *)
Record Options : Type := mkOptions {
  wcagLevel : list string;
  failOnViolations : bool;
  maxViolations : nat;
  includeScreenshots : bool;
  format : string
}.

(** One element of [violations] in the JSON answer. *)
Record ViolationEntry : Type := mkViolationEntry {
  entryId : string;
  entryDescription : string;
  entryImpact : value;
  entryTags : list string;
  entryNodes : nat;
  entryHelpUrl : string
}.

Record Counts : Type := mkCounts {
  violationCount : nat;
  passCount : nat;
  incompleteCount : nat;
  inapplicableCount : nat
}.

Record Body : Type := mkBody {
  success : bool;
  bodyUrl : string;
  bodyWcagLevel : list string;
  timestamp : string;
  summary : Counts;
  violations : list ViolationEntry;
  screenshots : list ScreenshotCapture.Screenshot
}.

Inductive response : Type :=
| BadRequest                         (* 400: URL is required *)
| ServerError (details : string)     (* 500: the [catch] *)
| JUnitXml (xml : string)            (* 200, [application/xml] *)
| SarifJson (report : SarifReport)   (* 200 *)
| Json (httpStatus : nat) (body : Body).

Definition violationEntry (violation : Axe.Rule) : ViolationEntry :=
  {| entryId := Axe.id violation;
     entryDescription := Axe.description violation;
     entryImpact := Axe.impact violation;
     entryTags := Axe.tags violation;
     entryNodes := length (Axe.nodes violation);
     entryHelpUrl := Axe.helpUrl violation |}.

Section Handler.
Variable opts : Options.

(** The parameters of the screenshot capture: the platform's
    [path.join], what each element capture gives, the fresh test id, the
    reports directory, and the exception of the capture's set-up, if
    any. *)
Variable pathJoin : list string -> string.
Variable captured : nat -> nat -> bool.
Variables testId reportsDir : string.
Variable setupError : option string.

Definition passed (results : Axe.Results) : bool :=
  negb (failOnViolations opts)
  || (length (Axe.violations results) <=? maxViolations opts)%nat.

(** [screenshotData?.violationScreenshots || []]: the capture runs when
    it is enabled and a violation exists; its exception is caught. *)
Definition screenshotsOf (results : Axe.Results)
    : list ScreenshotCapture.Screenshot :=
  if includeScreenshots opts
     && (0 <? length (Axe.violations results))%nat
  then match ScreenshotCapture.captureViolationScreenshots
               pathJoin captured testId reportsDir setupError results with
       | inr data => ScreenshotCapture.violationScreenshots data
       | inl _ => []
       end
  else [].

(** The handler.  [url] is the field of the request body; [audit] is
    what the page and the rule engine give, or the exception of one of the
    awaits before the result; [closeError] is the exception of
    [browser.close()], if any; [now] is the clock at the response. *)
Definition handle (url : value) (audit : CiTestUrls.answer)
    (closeError : option string) (now : string) : response :=
  match url with
  | Undefined | Null | Str EmptyString => BadRequest
  | Str url =>
      match audit with
      | CiTestUrls.Raised message => ServerError message
      | CiTestUrls.Analyzed results =>
          let shots := screenshotsOf results in
          match closeError with
          | Some message => ServerError message
          | None =>
              if String.eqb (format opts) "junit"
              then JUnitXml (generateJUnitReport results url (wcagLevel opts))
              else if String.eqb (format opts) "sarif"
              then SarifJson (generateSARIFReport results url (wcagLevel opts))
              else
                Json (if passed results then 200 else 422)
                  {| success := passed results;
                     bodyUrl := url;
                     bodyWcagLevel := wcagLevel opts;
                     timestamp := now;
                     summary :=
                       {| violationCount := length (Axe.violations results);
                          passCount := length (Axe.passes results);
                          incompleteCount := length (Axe.incomplete results);
                          inapplicableCount :=
                            length (Axe.inapplicable results) |};
                     violations := map violationEntry (Axe.violations results);
                     screenshots := shots |}
          end
      end
  end.

End Handler.

End CiTestUrl.

(* ===================================================================== *)
(** * The command line: exit codes of [test-url] and [test-urls] *)
(* ===================================================================== *)

Module Cli.
Import Js.

(** [v.impact.toUpperCase()] returns: the impact is a string.  On
    [null] or a missing impact it throws a [TypeError]. *)
Definition impactPrints (v : CiTestUrl.ViolationEntry) : bool :=
  match CiTestUrl.entryImpact v with
  | Str _ => true
  | _ => false
  end.

(** The exit code of [test-url] once the request body is built.
    [fetched] is the answer of the server as the command parses it
    ([None]: [fetch] or the parsing throws); [writeFails]: an output file
    was asked for and writing it throws.  Any exception reaches the
    [catch], which exits with 1; a run that calls no [process.exit] ends
    with 0. *)
Definition testUrlExit (fetched : option CiTestUrl.response)
    (writeFails : bool) : nat :=
  match fetched with
  | None => 1
  | Some answer =>
      if writeFails then 1
      else
        match answer with
        | CiTestUrl.JUnitXml _ => 0       (* a string has no [success] *)
        | CiTestUrl.SarifJson _ => 0      (* nor has the SARIF document *)
        | CiTestUrl.BadRequest => 1       (* [result.summary] is undefined *)
        | CiTestUrl.ServerError _ => 1
        | CiTestUrl.Json _ body =>
            if forallb impactPrints (firstn 5 (CiTestUrl.violations body))
            then if CiTestUrl.success body then 0 else 1
            else 1
        end
  end.

(** The exit code of [test-urls].  [urlsContent] is the content of the
    file ([None]: reading it throws); [server] is the answer to the
    request for the parsed URLs ([None]: [fetch] or the parsing throws). *)
Definition testUrlsExit (urlsContent : option string)
    (server : list string -> option CiTestUrls.response)
    (writeFails : bool) : nat :=
  match urlsContent with
  | None => 1
  | Some content =>
      match UrlFile.readUrls content with
      | inl _ => 1
      | inr urls =>
          match server urls with
          | None => 1
          | Some answer =>
              if writeFails then 1
              else
                match answer with
                | CiTestUrls.Respond _ body =>
                    if CiTestUrls.bodySuccess body then 0 else 1
                | CiTestUrls.BadRequest => 1  (* [result.summary] is undefined *)
                | CiTestUrls.ServerError _ => 1
                end
          end
      end
  end.

End Cli.

(* ===================================================================== *)
(** * Properties of the export formatters *)
(* ===================================================================== *)

Module ExportFormattersFacts.
Import Js ExportFormatters Samples.






(** The levels [mapImpactToLevel] gives on the four known impacts and on
    an absent one. *)
Lemma mapImpactToLevel_known :
  mapImpactToLevel (Str "critical") = LevelString "error"
  /\ mapImpactToLevel (Str "serious") = LevelString "error"
  /\ mapImpactToLevel (Str "moderate") = LevelString "warning"
  /\ mapImpactToLevel (Str "minor") = LevelString "note"
  /\ mapImpactToLevel Undefined = LevelString "warning"
  /\ mapImpactToLevel Null = LevelString "warning".
Proof. repeat split. Qed.

(** C10, as stated, fails: on an impact that names a member of
    [Object.prototype], [mapping[impact]] is that member, which is
    truthy, so the default is not taken. *)
Lemma mapImpactToLevel_inherited_key :
  mapImpactToLevel (Str "constructor") = LevelPrototypeMember "constructor"
  /\ mapImpactToLevel (Str "constructor") <> LevelString "warning".
Proof. split; [reflexivity | discriminate]. Qed.

Lemma getOwn_mapping (key : string) :
  getOwn mapping key =
  if String.eqb key "critical" then Some "error"
  else if String.eqb key "serious" then Some "error"
  else if String.eqb key "moderate" then Some "warning"
  else if String.eqb key "minor" then Some "note"
  else None.
Proof. reflexivity. Qed.

(** C10, amended: the mapping never fails; on every impact that does not
    name a member inherited from [Object.prototype] -- the four known
    impacts, an absent impact, any other string -- it returns the level
    of the table, [warning] being the default. *)
Theorem mapImpactToLevel_total (impact : value) :
  inheritedName (toString impact) = false ->
  mapImpactToLevel impact = LevelString (Spec.level impact).
Proof.
  intros Hplain. unfold mapImpactToLevel, Spec.level.
  rewrite getOwn_mapping.
  repeat match goal with
         | |- context [String.eqb ?a ?b] => destruct (String.eqb a b)
         end; try reflexivity.
  now rewrite Hplain.
Qed.

Lemma mapImpactToLevel_total_witness :
  inheritedName (toString Null) = false
  /\ mapImpactToLevel Null = LevelString "warning".
Proof.
  split; [reflexivity|].
  exact (mapImpactToLevel_total Null eq_refl).
Defined.

(** Every SARIF result entry carries the level of its violation. *)
Lemma sarif_levels (results : Axe.Results) (url : string) (r : SarifResult) :
  In r (sarifResults results url) ->
  exists v, In v (Axe.violations results)
            /\ resultLevel r = mapImpactToLevel (Axe.impact v).
Proof.
  unfold sarifResults. rewrite in_flat_map.
  intros (v & Hv & Hr). exists v. split; [assumption|].
  apply in_map_iff in Hr. destruct Hr as (n & <- & _). reflexivity.
Qed.

End ExportFormattersFacts.

(* ===================================================================== *)
(** * Properties of the batch runner *)
(* ===================================================================== *)

Module BatchTestFacts.
Import Js BatchTest BatchInvariant.

Lemma filter_length_le {A} (f : A -> bool) (l : list A) :
  length (filter f l) <= length l.
Proof.
  induction l as [|a l IH]; simpl; [lia|].
  destruct (f a); simpl; lia.
Qed.

Lemma filter_all_iff {A} (f : A -> bool) (l : list A) :
  Nat.eqb (length (filter f l)) (length l) = forallb f l.
Proof.
  induction l as [|a l IH]; simpl; [reflexivity|].
  destruct (f a); simpl; [exact IH|].
  pose proof (filter_length_le f l).
  apply Nat.eqb_neq. lia.
Qed.

Lemma firstn_snoc {A} (l : list A) (n : nat) (a : A) :
  nth_error l n = Some a -> firstn (S n) l = firstn n l ++ [a].
Proof.
  revert n. induction l as [|b l IH]; intros [|n] H; simpl in *;
    try discriminate.
  - now inversion H.
  - f_equal. now apply IH.
Qed.

Section Invariant.
Variables PORT theBatchId : string.
Variable urls : list string.
Variable started : string.

Local Abbreviation next := (next PORT theBatchId urls).
Local Abbreviation run := (run PORT theBatchId urls).
Local Abbreviation initial := (initial theBatchId urls started).
Local Abbreviation enterIteration := (enterIteration urls).
Local Abbreviation consistent := (consistent urls).

Lemma initial_consistent : consistent initial.
Proof. constructor; simpl; auto; lia. Qed.

(** Entering iteration [i] with [i] outcomes recorded keeps the
    invariant, whether the loop goes on or ends. *)
Lemma enterIteration_consistent (bp : BatchProgress) :
  totalUrls bp = length urls ->
  completedUrls bp = length (results bp) ->
  failedUrls bp = length (filter failedEntry (results bp)) ->
  map url (results bp) = firstn (length (results bp)) urls ->
  length (results bp) <= length urls ->
  consistent (enterIteration (length (results bp)) bp).
Proof.
  intros Ht Hc Hf Ho Hb. unfold BatchTest.enterIteration.
  destruct (nth_error urls (length (results bp))) as [u|] eqn:Hu.
  - constructor; simpl; auto. split; [reflexivity|].
    apply nth_error_Some. congruence.
  - constructor; simpl; auto.
Qed.

Lemma next_consistent (c c' : config) (ev : event) :
  consistent c -> next c ev = Some c' -> consistent c'.
Proof.
  intros [Ht Hc Hf Ho Hb Hp] Hstep.
  destruct c as [bp ph]; simpl in *.
  unfold BatchTest.next in Hstep; simpl in Hstep.
  destruct ph as [| i | |];
    destruct ev as [ | msg now | msg | tid now r | msg now | now ];
    try discriminate.
  - (* session open *)
    inversion Hstep; subst c'; clear Hstep.
    replace 0 with (length (results bp)) by (now rewrite Hp).
    now apply enterIteration_consistent.
  - (* launch threw *)
    inversion Hstep; subst c'; clear Hstep.
    constructor; simpl; auto.
  - (* newContext threw *)
    inversion Hstep; subst c'; clear Hstep.
    constructor; simpl; auto.
  - (* the audit returned *)
    destruct Hp as [-> Hlt].
    destruct (nth_error urls (length (results bp))) as [u|] eqn:Hu;
      [|discriminate].
    inversion Hstep; subst c'; clear Hstep.
    set (bp' := completedStatus
                  (recordSuccess (successSummary PORT theBatchId u tid now r) bp)).
    assert (Hlen : length (results bp') = S (length (results bp))).
    { subst bp'; simpl. rewrite length_app; simpl; lia. }
    rewrite <- Hlen.
    apply enterIteration_consistent; subst bp'; simpl; auto.
    + rewrite length_app; simpl; lia.
    + rewrite filter_app; simpl. rewrite app_nil_r. exact Hf.
    + rewrite map_app, length_app; simpl.
      rewrite Nat.add_1_r, (firstn_snoc _ _ _ Hu). now rewrite Ho.
    + rewrite length_app; simpl; lia.
  - (* the audit threw *)
    destruct Hp as [-> Hlt].
    destruct (nth_error urls (length (results bp))) as [u|] eqn:Hu;
      [|discriminate].
    inversion Hstep; subst c'; clear Hstep.
    set (bp' := completedStatus
                  (recordFailure
                     (failedResult theBatchId u (length (results bp)) msg now) bp)).
    assert (Hlen : length (results bp') = S (length (results bp))).
    { subst bp'; simpl. rewrite length_app; simpl; lia. }
    rewrite <- Hlen.
    apply enterIteration_consistent; subst bp'; simpl; auto.
    + rewrite length_app; simpl; lia.
    + rewrite filter_app; simpl. rewrite length_app; simpl. lia.
    + rewrite map_app, length_app; simpl.
      rewrite Nat.add_1_r, (firstn_snoc _ _ _ Hu). now rewrite Ho.
    + rewrite length_app; simpl; lia.
  - (* the session is closed *)
    inversion Hstep; subst c'; clear Hstep.
    constructor; simpl; auto.
Qed.

Lemma run_consistent (evs : list event) (c c' : config) :
  consistent c -> run c evs = Some c' -> consistent c'.
Proof.
  revert c. induction evs as [|ev evs IH]; intros c Hc Hrun; simpl in Hrun.
  - now inversion Hrun; subst.
  - destruct (next c ev) as [c1|] eqn:Hstep; [|discriminate].
    eapply IH; [|exact Hrun]. eapply next_consistent; eauto.
Qed.

Lemma reachable_consistent (c : config) :
  reachable PORT theBatchId urls started c -> consistent c.
Proof.
  intros [evs Hrun]. eapply run_consistent; [|exact Hrun].
  apply initial_consistent.
Qed.

(** A segment of the task never lowers a counter and only appends to
    the outcomes. *)
Lemma next_grows (c c' : config) (ev : event) :
  next c ev = Some c' ->
  completedUrls (progress c) <= completedUrls (progress c')
  /\ failedUrls (progress c) <= failedUrls (progress c')
  /\ exists added,
       results (progress c') = results (progress c) ++ added.
Proof.
  destruct c as [bp ph]; unfold BatchTest.next; simpl.
  assert (Henter : forall i b,
             completedUrls (progress (enterIteration i b)) = completedUrls b
             /\ failedUrls (progress (enterIteration i b)) = failedUrls b
             /\ results (progress (enterIteration i b)) = results b).
  { intros i b. unfold BatchTest.enterIteration.
    destruct (nth_error urls i); simpl; auto. }
  destruct ph as [| i | |];
    destruct ev as [ | msg now | msg | tid now r | msg now | now ];
    try discriminate; intros Hstep.
  - inversion Hstep; subst c'.
    destruct (Henter 0 bp) as (-> & -> & ->).
    repeat split; auto. exists []. now rewrite app_nil_r.
  - inversion Hstep; subst c'; simpl.
    repeat split; auto. exists []. now rewrite app_nil_r.
  - inversion Hstep; subst c'; simpl.
    repeat split; auto. exists []. now rewrite app_nil_r.
  - destruct (nth_error urls i) as [u|]; [|discriminate].
    inversion Hstep; subst c'.
    match goal with
    | |- context [enterIteration ?j ?b] =>
        destruct (Henter j b) as (-> & -> & ->)
    end; simpl.
    repeat split; auto. now eexists.
  - destruct (nth_error urls i) as [u|]; [|discriminate].
    inversion Hstep; subst c'.
    match goal with
    | |- context [enterIteration ?j ?b] =>
        destruct (Henter j b) as (-> & -> & ->)
    end; simpl.
    repeat split; auto. now eexists.
  - inversion Hstep; subst c'; simpl.
    repeat split; auto. exists []. now rewrite app_nil_r.
Qed.

End Invariant.

(** From the head of iteration [length done], the audits of the
    remaining URLs [todo] and the close of the session lead the task to
    its end, one outcome per URL, in order. *)
Lemma run_remaining (PORT theBatchId : string) (endedAt : string)
    (todo : list string) :
  forall (done : list string) (audits : list audit) (bp : BatchProgress),
    length audits = length todo ->
    exists bp',
      run PORT theBatchId (done ++ todo)
          (enterIteration (done ++ todo) (length done) bp)
          (map auditEvent audits ++ [SessionClosed endedAt])
      = Some {| progress := finish endedAt bp'; at_ := Done |}
      /\ totalUrls bp' = totalUrls bp
      /\ completedUrls bp' = completedUrls bp + length todo
      /\ failedUrls bp' = failedUrls bp + length (filter threw audits)
      /\ map url (results bp') = map url (results bp) ++ todo.
Proof.
  induction todo as [|u todo IH]; intros done audits bp Hlen.
  - destruct audits; [|discriminate]. exists bp.
    unfold enterIteration. rewrite app_nil_r.
    replace (nth_error done (length done)) with (@None string)
      by (symmetry; apply nth_error_None; lia).
    simpl. repeat split; auto. now rewrite app_nil_r.
  - destruct audits as [|a audits]; [discriminate|].
    injection Hlen as Hlen.
    assert (Hu : nth_error (done ++ u :: todo) (length done) = Some u).
    { rewrite nth_error_app2 by lia. now rewrite Nat.sub_diag. }
    assert (Hshift : done ++ u :: todo = (done ++ [u]) ++ todo).
    { now rewrite <- app_assoc. }
    assert (Hnext : S (length done) = length (done ++ [u])).
    { rewrite length_app; simpl; lia. }
    unfold enterIteration at 1. rewrite Hu.
    cbn [map app run]. unfold next at 1. cbn [at_ progress]. rewrite Hu.
    destruct a as [tid now r | msg now]; cbn [auditEvent].
    + rewrite Hshift, Hnext.
      destruct (IH (done ++ [u]) audits
                  (completedStatus
                     (recordSuccess
                        (successSummary PORT theBatchId u tid now r)
                        (setStatus (template ["Testing "; u]) bp))) Hlen)
        as (bp' & Hrun & Ht & Hc & Hf & Ho).
      exists bp'. split; [exact Hrun|].
      simpl in *. repeat split; auto; try lia.
      rewrite Ho, map_app, <- app_assoc. reflexivity.
    + rewrite Hshift, Hnext.
      destruct (IH (done ++ [u]) audits
                  (completedStatus
                     (recordFailure
                        (failedResult theBatchId u (length done) msg now)
                        (setStatus (template ["Testing "; u]) bp))) Hlen)
        as (bp' & Hrun & Ht & Hc & Hf & Ho).
      exists bp'. split; [exact Hrun|].
      simpl in *. repeat split; auto; try lia.
      rewrite Ho, map_app, <- app_assoc. reflexivity.
Qed.

(** C6: at every suspension point of the background task, during and
    after the run, [failedUrls <= completedUrls <= totalUrls]; the
    outcomes recorded so far are those of the first URLs of the request,
    in input order; and the next segment of the task lowers no counter
    and removes no outcome: it only appends. *)
Theorem batch_progress_invariants (PORT theBatchId : string)
    (urls : list string) (started : string) (c : config) :
  reachable PORT theBatchId urls started c ->
  failedUrls (progress c) <= completedUrls (progress c) <= totalUrls (progress c)
  /\ totalUrls (progress c) = length urls
  /\ map url (results (progress c))
     = firstn (completedUrls (progress c)) urls
  /\ forall ev c',
       next PORT theBatchId urls c ev = Some c' ->
       completedUrls (progress c) <= completedUrls (progress c')
       /\ failedUrls (progress c) <= failedUrls (progress c')
       /\ exists added,
            results (progress c') = results (progress c) ++ added.
Proof.
  intros Hreach.
  destruct (reachable_consistent _ _ _ _ _ Hreach) as [Ht Hc Hf Ho Hb _].
  repeat split.
  - rewrite Hf, Hc. apply filter_length_le.
  - rewrite Hc, Ht. exact Hb.
  - exact Ht.
  - rewrite Hc. exact Ho.
  - eapply next_grows; eauto.
  - eapply next_grows; eauto.
  - eapply next_grows; eauto.
Qed.

Lemma batch_progress_invariants_witness :
  exists c,
    run "3001" "b1" Samples.scenarioUrls
        (initial "b1" Samples.scenarioUrls "2025-01-01T00:00:00.000Z")
        Samples.scenarioMidRun = Some c
    /\ completedUrls (progress c) = 2
    /\ failedUrls (progress c) <= completedUrls (progress c)
                               <= totalUrls (progress c).
Proof.
  eexists. split; [reflexivity|]. split; [reflexivity|].
  apply (batch_progress_invariants "3001" "b1" Samples.scenarioUrls
           "2025-01-01T00:00:00.000Z").
  exists Samples.scenarioMidRun. reflexivity.
Defined.

(** C1, as stated, fails: the run of scenario A, in which one URL of
    three fails, ends with status [completed]; the task has no
    [partiallyFailed] status. *)
Lemma scenarioA_ends_completed :
  exists bp,
    Samples.scenarioRun = Some bp
    /\ status bp = "completed"
    /\ status bp <> "partiallyFailed"
    /\ completedUrls bp = 3
    /\ failedUrls bp = 1
    /\ map url (results bp) = Samples.scenarioUrls.
Proof.
  eexists. split; [reflexivity|].
  repeat split. discriminate.
Qed.

(** C1, amended: when the background task of a batch run has returned,
    the recorded status is [failed] if every requested URL failed, and
    [completed] otherwise, also when some but not all URLs failed.  A run
    whose session opens processes every URL: [completedUrls] is the size
    of the request, [failedUrls] the number of audits that threw, and the
    outcomes are those of the requested URLs in input order (so scenario
    A ends [completed] with 3 completed, 1 failed and 3 outcomes). *)
Theorem batch_final_status (PORT theBatchId : string) (urls : list string)
    (started : string) :
  (forall evs c,
      run PORT theBatchId urls (initial theBatchId urls started) evs = Some c ->
      at_ c = Done ->
      status (progress c)
      = (if Nat.eqb (length (filter failedEntry (results (progress c))))
                    (length urls)
         then "failed" else "completed")
      /\ failedUrls (progress c)
         = length (filter failedEntry (results (progress c))))
  /\ (forall audits endedAt,
         length audits = length urls ->
         exists bp,
           runBatch PORT theBatchId urls started audits endedAt = Some bp
           /\ status bp = (if forallb threw audits then "failed"
                           else "completed")
           /\ totalUrls bp = length urls
           /\ completedUrls bp = length urls
           /\ failedUrls bp = length (filter threw audits)
           /\ map url (results bp) = urls).
Proof.
  split.
  - intros evs c Hrun Hdone.
    assert (Hinv : consistent urls c).
    { eapply run_consistent; [apply initial_consistent | exact Hrun]. }
    destruct Hinv as [Ht Hc Hf Ho Hb Hp].
    rewrite Hdone in Hp. rewrite Hp, Hf, Ht. auto.
  - intros audits endedAt Hlen.
    destruct (run_remaining PORT theBatchId endedAt urls [] audits
                (initialProgress theBatchId urls started) Hlen)
      as (bp' & Hrun & Ht & Hc & Hf & Ho).
    simpl in Hrun, Ht, Hc, Hf, Ho.
    exists (finish endedAt bp').
    unfold runBatch, fullRun. cbn [run]. unfold next at 1.
    cbn [at_ progress initial]. rewrite Hrun. cbn [at_ progress].
    split; [reflexivity|]. simpl.
    rewrite Hf, Ht, <- Hlen, filter_all_iff.
    repeat split; auto; congruence.
Qed.

Lemma batch_final_status_witness :
  length Samples.scenarioAudits = length Samples.scenarioUrls
  /\ exists bp,
       Samples.scenarioRun = Some bp
       /\ status bp = "completed"
       /\ completedUrls bp = 3
       /\ failedUrls bp = 1.
Proof.
  split; [reflexivity|].
  destruct (proj2 (batch_final_status "3001" "b1" Samples.scenarioUrls
                     "2025-01-01T00:00:00.000Z")
              Samples.scenarioAudits "2025-01-01T00:00:33.000Z" eq_refl)
    as (bp & Hrun & Hs & _ & Hc & Hf & _).
  exists bp. repeat split; assumption.
Defined.

End BatchTestFacts.

(* ===================================================================== *)
(** * Properties of the CI bulk handler *)
(* ===================================================================== *)

Module CiTestUrlsFacts.
Import CiTestUrls CiInvariant.

Lemma resultUrl_entryOf (opts : Options) (pages : list (string * answer)) :
  map resultUrl (map (entryOf opts) pages) = map fst pages.
Proof.
  rewrite map_map. apply map_ext. intros [u [r|m]]; reflexivity.
Qed.

Section StopOnFailure.
Variable opts : Options.
Hypothesis stops : continueOnFailure opts = false.

(** With [continueOnFailure = false] the loop records the pages up to
    and including the first failing one, and nothing after it. *)
Lemma loop_stops (pages : list (string * answer)) :
  forall (acc : list UrlResult) (overall : bool),
  exists n,
    n <= length pages
    /\ fst (loop opts pages acc overall)
       = acc ++ map (entryOf opts) (firstn n pages)
    /\ forall k u a,
         nth_error pages k = Some (u, a) -> fails opts a = true ->
         n <= S k /\ snd (loop opts pages acc overall) = false.
Proof.
  induction pages as [|[url ans] rest IH]; intros acc overall.
  - exists 0. simpl. repeat split; auto.
    + now rewrite app_nil_r.
    + destruct k; discriminate.
    + destruct k; discriminate.
  - destruct ans as [testResults | message]; simpl; rewrite stops; simpl.
    + destruct (urlSuccess opts testResults) eqn:Hok; simpl.
      * destruct (IH (acc ++ [Tested url true
                                (length (Axe.violations testResults))
                                (length (Axe.passes testResults))
                                (length (Axe.incomplete testResults))
                                (map (detailOf) (Axe.violations testResults))])
                     overall) as (n & Hn & Hfst & Hk).
        exists (S n). split; [lia|]. split.
        -- rewrite Hfst, <- app_assoc. simpl. now rewrite Hok.
        -- intros [|k] u a Hnth Hfail; simpl in Hnth.
           ++ inversion Hnth; subst. simpl in Hfail.
              rewrite Hok in Hfail. discriminate.
           ++ destruct (Hk k u a Hnth Hfail). split; [lia|assumption].
      * exists 1. split; [lia|]. split.
        -- simpl. now rewrite Hok.
        -- intros k u a _ _. split; [lia|reflexivity].
    + exists 1. split; [lia|]. split.
      * reflexivity.
      * intros k u a _ _. split; [lia|reflexivity].
Qed.

End StopOnFailure.

(** C5: in a run with [continueOnFailure = false] in which the audit of
    URL [k] fails (it throws, or its violations exceed the threshold),
    the handler answers with a report that holds no outcome for any URL
    after [k] in input order -- the outcomes are those of the first URLs
    of the request, at most [k + 1] of them -- while [totalUrls] is
    still the size of the request. *)
Theorem ci_no_outcome_after_failure (opts : Options)
    (pages : list (string * answer)) (k : nat) (u : string) (a : answer)
    (now : string) :
  continueOnFailure opts = false ->
  nth_error pages k = Some (u, a) ->
  fails opts a = true ->
  exists body,
    handle opts None pages None now = Respond 422 body
    /\ totalUrls (summary body) = length pages
    /\ testedUrls (summary body) = length (results body)
    /\ length (results body) <= S k
    /\ map resultUrl (results body)
       = firstn (length (results body)) (map fst pages)
    /\ forall j, k < j -> nth_error (results body) j = None.
Proof.
  intros Hstop Hk Hfail.
  destruct (loop_stops opts Hstop pages [] true) as (n & Hn & Hfst & Hlater).
  destruct (Hlater k u a Hk Hfail) as [Hnk Hsnd].
  unfold handle. destruct pages as [|p pages']; [destruct k; discriminate|].
  set (pages := p :: pages') in *.
  destruct (loop opts pages [] true) as [rs overall] eqn:Hloop.
  simpl in Hfst, Hsnd. subst overall rs.
  assert (Hlen : length (map (entryOf opts) (firstn n pages)) = n).
  { rewrite length_map. apply firstn_length_le. exact Hn. }
  eexists. split; [reflexivity|]. simpl.
  repeat split.
  - rewrite Hlen. exact Hnk.
  - rewrite Hlen, resultUrl_entryOf. exact (eq_sym (firstn_map fst n pages)).
  - intros j Hj. apply nth_error_None. rewrite Hlen. lia.
Qed.

Lemma ci_no_outcome_after_failure_witness :
  continueOnFailure stopOptions = false
  /\ nth_error threePages 1
     = Some ("https://example.org/slow",
             Raised "page.goto: Timeout 30000ms exceeded.")
  /\ exists body,
       handle stopOptions None threePages None "2025-01-01T00:01:00.000Z"
       = Respond 422 body
       /\ totalUrls (summary body) = 3
       /\ length (results body) <= 2.
Proof.
  split; [reflexivity|]. split; [reflexivity|].
  destruct (ci_no_outcome_after_failure stopOptions threePages 1
              "https://example.org/slow"
              (Raised "page.goto: Timeout 30000ms exceeded.")
              "2025-01-01T00:01:00.000Z" eq_refl eq_refl eq_refl)
    as (body & Hresp & Htotal & _ & Hlen & _).
  exists body. repeat split; assumption.
Defined.

End CiTestUrlsFacts.

(* ===================================================================== *)
(** * Properties of the executive summary statistics *)
(* ===================================================================== *)

Module PDFGeneratorFacts.
Import Js PDFGenerator ScoreCheck.

(** ** Severity counts *)



(** C2: the code at a result with one critical violation on two nodes.
    The count of critical violation nodes is 2, yet the severity counter
    the recommendations read is 0, and the list holds the focus line
    only: the urgent remediation line is missing. *)
Theorem critical_violation_without_urgent_line :
  Spec.nodesOfImpact "critical" Samples.twoNodeViolation = 2
  /\ critical (severityCounts Samples.twoNodeViolation) = 0
  /\ exists stats,
       calculateSummaryStats Samples.twoNodeViolation = Some stats
       /\ recommendations stats
          = ["Focus on text alternatives improvements (1 issues)"]
       /\ ~ In (urgentLine 2) (recommendations stats).
Proof.
  split; [reflexivity|]. split; [reflexivity|].
  eexists. split; [reflexivity|]. split; [reflexivity|].
  simpl. intros [H|[]]. discriminate.
Qed.

(** ** Score and grade *)

Lemma scores_agree_200 : scoresAgreeUpTo 200 = true.
Proof. vm_compute. reflexivity. Qed.

Lemma scoresAgreeUpTo_sound (bound total passed : nat) :
  scoresAgreeUpTo bound = true ->
  0 < total <= bound -> passed <= total ->
  scoreAgrees total passed = true.
Proof.
  unfold scoresAgreeUpTo. intros Hall Htotal Hpassed.
  rewrite forallb_forall in Hall.
  assert (Hin : In total (seq 1 bound)) by (apply in_seq; lia).
  specialize (Hall total Hin). rewrite forallb_forall in Hall.
  apply Hall. apply in_seq. lia.
Qed.





(** Scenario C: no violation and fifty passes give the score 100, the
    grade Excellent and the positive line alone. *)
Example scenarioC_all_passed :
  exists stats,
    calculateSummaryStats fiftyPasses = Some stats
    /\ statScore stats = Finite 100
    /\ statGrade stats = "Excellent"
    /\ recommendations stats = [positiveLine].
Proof. eexists. split; [vm_compute; reflexivity|]. repeat split. Qed.

(** C9: when no rule was evaluated, the score is not computed by a
    division: it is 100, and the grade is Excellent. *)
Theorem score_without_rules (results : Axe.Results) :
  totalRules results = 0 ->
  score results = Finite 100
  /\ grade results = "Excellent"
  /\ exists stats,
       calculateSummaryStats results = Some stats
       /\ statScore stats = Finite 100
       /\ statGrade stats = "Excellent".
Proof.
  intros Hzero.
  assert (Hs : score results = Finite 100).
  { unfold score, scoreOf. now rewrite Hzero. }
  assert (Hg : grade results = "Excellent").
  { unfold grade. now rewrite Hs. }
  assert (Hv : Axe.violations results = []).
  { unfold totalRules in Hzero.
    destruct (Axe.violations results); [reflexivity | simpl in Hzero; lia]. }
  repeat split; auto.
  unfold calculateSummaryStats, topCategories. rewrite Hv. simpl.
  eexists. split; [reflexivity|]. simpl. auto.
Qed.

Lemma score_without_rules_witness :
  totalRules Samples.noFindings = 0
  /\ score Samples.noFindings = Finite 100
  /\ grade Samples.noFindings = "Excellent".
Proof.
  split; [reflexivity|].
  destruct (score_without_rules Samples.noFindings eq_refl) as (Hs & Hg & _).
  split; assumption.
Defined.

End PDFGeneratorFacts.

(* ===================================================================== *)
(** * Properties of the report consolidation *)
(* ===================================================================== *)

Module ReportGeneratorFacts.
Import Js ReportGenerator GroupInvariant.

(** ** Own properties *)

Lemma getOwn_None {A} (o : object A) (k : string) :
  getOwn o k = None <-> ~ In k (map fst o).
Proof.
  induction o as [|[k' v] o IH]; simpl; [tauto|].
  destruct (String.eqb_spec k k') as [->|Hne].
  - split; [discriminate | intros H; exfalso; apply H; now left].
  - rewrite IH. split; [intros H [E|I]; [congruence | tauto] | tauto].
Qed.

Lemma getOwn_app_last {A} (o : object A) (k : string) (v : A) :
  ~ In k (map fst o) -> getOwn (o ++ [(k, v)]) k = Some v.
Proof.
  induction o as [|[k' w] o IH]; simpl; intros Hnotin.
  - now rewrite String.eqb_refl.
  - destruct (String.eqb_spec k k') as [->|Hne]; [tauto|].
    apply IH. tauto.
Qed.

Lemma keys_updateOwn {A} (o : object A) (k : string) (f : A -> A) :
  map fst (updateOwn o k f) = map fst o.
Proof.
  induction o as [|[k' v] o IH]; simpl; [reflexivity|].
  destruct (String.eqb k k'); simpl; [reflexivity | now rewrite IH].
Qed.

Lemma updateOwn_app_last {A} (o : object A) (k : string) (v : A)
    (f : A -> A) :
  ~ In k (map fst o) -> updateOwn (o ++ [(k, v)]) k f = o ++ [(k, f v)].
Proof.
  induction o as [|[k' w] o IH]; simpl; intros Hnotin.
  - now rewrite String.eqb_refl.
  - destruct (String.eqb_spec k k') as [->|Hne]; [tauto|].
    f_equal. apply IH. tauto.
Qed.

Lemma NoDup_snoc {A} (l : list A) (a : A) :
  NoDup l -> ~ In a l -> NoDup (l ++ [a]).
Proof.
  intros Hl Ha.
  apply (Permutation_NoDup (Permutation_cons_append l a)).
  now constructor.
Qed.

(** ** One row at a time *)

Lemma pushRow_groupOf (k : string) (rs : list string) (row : string) :
  pushRow row (groupOf k rs) = groupOf k (rs ++ [row]).
Proof.
  unfold pushRow, groupOf; simpl.
  rewrite map_app, length_app; simpl. f_equal. lia.
Qed.

Lemma updateOwn_keyed (from : string -> Prop) (row : string)
    (o : object Group) :
  from row ->
  Forall (keyed from) o ->
  Forall (keyed from)
         (updateOwn o (extractFixInstructions row) (pushRow row)).
Proof.
  intros Hfrom Hall.
  induction Hall as [|[k g] o Hkg Ho IH]; simpl; [constructor|].
  destruct (String.eqb_spec (extractFixInstructions row) k) as [Hk|Hne].
  - constructor; [|assumption].
    destruct Hkg as (Hplain & Hg & Hne & Hrows). simpl in *.
    repeat split; simpl; auto.
    + rewrite Hg at 1. now rewrite pushRow_groupOf.
    + now destruct (rows g).
    + apply Forall_app. split; [assumption|]. repeat constructor; auto.
  - constructor; assumption.
Qed.

Lemma addRow_grouped (from : string -> Prop) (o o' : object Group)
    (row : string) :
  grouped from o -> from row -> addRow o row = inr o' -> grouped from o'.
Proof.
  intros [Hnodup Hall] Hfrom. unfold addRow.
  destruct (getOwn o (extractFixInstructions row)) as [g|] eqn:Hget.
  - intros H; inversion H; subst o'; clear H. split.
    + now rewrite keys_updateOwn.
    + now apply updateOwn_keyed.
  - destruct (inheritedName (extractFixInstructions row)) eqn:Hplain;
      [discriminate|].
    intros H; inversion H; subst o'; clear H.
    apply getOwn_None in Hget.
    rewrite (updateOwn_app_last _ _ _ _ Hget). split.
    + rewrite map_app. simpl. now apply NoDup_snoc.
    + apply Forall_app. split; [assumption|].
      repeat constructor; simpl; auto. discriminate.
Qed.

Lemma addRows_grouped (from : string -> Prop) (rs : list string) :
  forall o o', grouped from o -> Forall from rs ->
               addRows o rs = inr o' -> grouped from o'.
Proof.
  induction rs as [|row rs IH]; simpl; intros o o' Ho Hrs Hrun.
  - now inversion Hrun; subst.
  - inversion Hrs; subst.
    destruct (addRow o row) as [e|o1] eqn:Hrow; [discriminate|].
    eapply IH; [|eassumption|exact Hrun].
    eapply addRow_grouped; eauto.
Qed.

(** The loop returns whenever no key names an inherited member. *)
Lemma addRows_returns (rs : list string) :
  forallb plainKey rs = true ->
  forall o, exists o', addRows o rs = inr o'.
Proof.
  induction rs as [|row rs IH]; simpl; intros Hplain o.
  - now exists o.
  - apply andb_prop in Hplain. destruct Hplain as [Hrow Hrs].
    unfold addRow. unfold plainKey in Hrow.
    destruct (getOwn o (extractFixInstructions row)).
    + apply IH; assumption.
    + apply negb_true_iff in Hrow. rewrite Hrow. apply IH; assumption.
Qed.

Lemma addRows_app (rs1 rs2 : list string) :
  forall o o1, addRows o rs1 = inr o1 ->
               addRows o (rs1 ++ rs2) = addRows o1 rs2.
Proof.
  induction rs1 as [|row rs1 IH]; simpl; intros o o1 Hrun.
  - now inversion Hrun.
  - destruct (addRow o row) as [e|o'] eqn:Hrow; [discriminate|].
    now apply IH.
Qed.

(** ** A block of rows that share a key *)

Lemma add_to_last (k : string) (acc : object Group) (rs : list string) :
  ~ In k (map fst acc) ->
  Forall (fun r => extractFixInstructions r = k) rs ->
  forall rs0,
    addRows (acc ++ [(k, groupOf k rs0)]) rs
    = inr (acc ++ [(k, groupOf k (rs0 ++ rs))]).
Proof.
  intros Hnotin Hall.
  induction Hall as [|row rs Hrow Hrs IH]; intros rs0; simpl.
  - now rewrite app_nil_r.
  - unfold addRow. rewrite Hrow, (getOwn_app_last _ _ _ Hnotin).
    rewrite (updateOwn_app_last _ _ _ _ Hnotin), pushRow_groupOf.
    rewrite IH, <- app_assoc. reflexivity.
Qed.

Lemma add_block (k : string) (acc : object Group) (rs rest : list string) :
  ~ In k (map fst acc) ->
  inheritedName k = false ->
  rs <> [] ->
  Forall (fun r => extractFixInstructions r = k) rs ->
  addRows acc (rs ++ rest) = addRows (acc ++ [(k, groupOf k rs)]) rest.
Proof.
  intros Hnotin Hplain Hne Hrs.
  destruct rs as [|row rs]; [contradiction|].
  pose proof (Forall_inv Hrs) as Hrow.
  pose proof (Forall_inv_tail Hrs) as Hrs'. simpl in Hrow.
  apply addRows_app. simpl. unfold addRow.
  rewrite Hrow.
  replace (getOwn acc k) with (@None Group)
    by (symmetry; now apply getOwn_None).
  rewrite Hplain, (updateOwn_app_last _ _ _ _ Hnotin).
  change (pushRow row (emptyGroup k)) with (groupOf k [row]).
  exact (add_to_last k acc rs Hnotin Hrs' [row]).
Qed.

(** Rows laid out group after group are grouped back into the same
    object. *)
Lemma regroup (from : string -> Prop) (entries : object Group) :
  forall acc,
    NoDup (map fst (acc ++ entries)) ->
    Forall (keyed from) entries ->
    addRows acc (flat_map (fun kv => rows (snd kv)) entries)
    = inr (acc ++ entries).
Proof.
  induction entries as [|[k g] entries IH]; intros acc Hnodup Hall; simpl.
  - now rewrite app_nil_r.
  - inversion Hall as [|? ? (Hplain & Hg & Hne & Hrows) Hall']; subst.
    simpl in *.
    assert (Hnotin : ~ In k (map fst acc)).
    { rewrite map_app in Hnodup. simpl in Hnodup.
      apply NoDup_remove_2 in Hnodup. rewrite in_app_iff in Hnodup. tauto. }
    rewrite (add_block k acc (rows g) _ Hnotin Hplain Hne).
    + rewrite <- Hg.
      rewrite (IH (acc ++ [(k, g)])).
      * now rewrite <- app_assoc.
      * now rewrite <- app_assoc.
      * assumption.
    + eapply Forall_impl; [|exact Hrows]. simpl. tauto.
Qed.

(** ** The order of [Object.entries] *)

Local Abbreviation ascending :=
  (StronglySorted (fun a b => (fst a <= fst b)%N)).

Lemma insertByIndex_perm {A} (i : N) (e : A) (l : list (N * A)) :
  Permutation (insertByIndex i e l) ((i, e) :: l).
Proof.
  induction l as [|[j w] l IH]; simpl; [reflexivity|].
  destruct (i <=? j)%N; [reflexivity|].
  rewrite IH. apply perm_swap.
Qed.

Lemma insertByIndex_ascending {A} (i : N) (e : A) (l : list (N * A)) :
  ascending l -> ascending (insertByIndex i e l).
Proof.
  induction l as [|[j w] l IH]; simpl; intros Hl.
  - repeat constructor.
  - inversion Hl as [|? ? Hl' Hj]; subst.
    destruct (N.leb_spec i j) as [Hle|Hlt].
    + constructor; [assumption|]. constructor; [assumption|].
      eapply Forall_impl; [|exact Hj]. simpl. intros; lia.
    + constructor; [now apply IH|].
      apply (Permutation_Forall (Permutation_sym (insertByIndex_perm i e l))).
      constructor; [simpl; lia | assumption].
Qed.

Lemma indexed_ascending {A} (o : object A) : ascending (indexed o).
Proof.
  induction o as [|[k v] o IH]; simpl; [constructor|].
  destruct (arrayIndex k); [now apply insertByIndex_ascending | assumption].
Qed.

Lemma indexed_keys {A} (o : object A) :
  Forall (fun x => arrayIndex (fst (snd x)) = Some (fst x)) (indexed o).
Proof.
  induction o as [|[k v] o IH]; simpl; [constructor|].
  destruct (arrayIndex k) as [i|] eqn:Hk; [|assumption].
  apply (Permutation_Forall (Permutation_sym (insertByIndex_perm i (k, v) _))).
  now constructor.
Qed.

Lemma named_keys {A} (o : object A) :
  Forall (fun kv => arrayIndex (fst kv) = None) (named o).
Proof.
  induction o as [|[k v] o IH]; simpl; [constructor|].
  destruct (arrayIndex k) eqn:Hk; [assumption | now constructor].
Qed.

Lemma objectEntries_perm {A} (o : object A) :
  Permutation (objectEntries o) o.
Proof.
  unfold objectEntries.
  induction o as [|[k v] o IH]; simpl; [constructor|].
  destruct (arrayIndex k) as [i|].
  - rewrite (Permutation_map snd (insertByIndex_perm i (k, v) (indexed o))).
    simpl. now constructor.
  - rewrite <- Permutation_middle. now constructor.
Qed.

(** Entries that are already in the order of [Object.entries] stay as
    they are. *)
Lemma entries_in_order {A} (sorted : list (N * (string * A)))
    (others : object A) :
  ascending sorted ->
  Forall (fun x => arrayIndex (fst (snd x)) = Some (fst x)) sorted ->
  Forall (fun kv => arrayIndex (fst kv) = None) others ->
  indexed (map snd sorted ++ others) = sorted
  /\ named (map snd sorted ++ others) = others.
Proof.
  intros Hsorted Hkeys Hothers.
  assert (Hbase : indexed others = [] /\ named others = others).
  { induction Hothers as [|[k v] others Hk _ [IHi IHn]]; simpl; auto.
    simpl in Hk. rewrite Hk. split; [assumption | now f_equal]. }
  induction sorted as [|[i [k v]] sorted IH]; simpl; [exact Hbase|].
  inversion Hsorted as [|? ? Hsorted' Hi]; subst.
  inversion Hkeys as [|? ? Hk Hkeys']; subst. simpl in Hk.
  destruct (IH Hsorted' Hkeys') as [IHi IHn].
  rewrite Hk, IHi, IHn. split; [|reflexivity].
  destruct sorted as [|[j w] sorted]; simpl; [reflexivity|].
  inversion Hi as [|? ? Hij _]; subst. simpl in Hij.
  destruct (N.leb_spec i j); [reflexivity | lia].
Qed.

Lemma objectEntries_idempotent {A} (o : object A) :
  objectEntries (objectEntries o) = objectEntries o.
Proof.
  unfold objectEntries at 1.
  destruct (entries_in_order (indexed o) (named o)
              (indexed_ascending o) (indexed_keys o) (named_keys o))
    as [Hi Hn].
  unfold objectEntries. now rewrite Hi, Hn.
Qed.

Lemma grouped_entries (from : string -> Prop) (o : object Group) :
  grouped from o -> grouped from (objectEntries o).
Proof.
  intros [Hnodup Hall]. split.
  - apply (Permutation_NoDup
             (Permutation_map fst (Permutation_sym (objectEntries_perm o)))).
    exact Hnodup.
  - apply (Permutation_Forall (Permutation_sym (objectEntries_perm o))).
    exact Hall.
Qed.

Lemma flat_map_values (entries : object Group) :
  flat_map rows (map snd entries)
  = flat_map (fun kv => rows (snd kv)) entries.
Proof.
  induction entries as [|kv entries IH]; simpl; [reflexivity|].
  now rewrite IH.
Qed.

(** The groups that [groupSimilarViolations] returns are the values of
    a grouped object. *)
Lemma groups_grouped (tableRows : list string) (groups : list Group) :
  groupSimilarViolations tableRows = inr groups ->
  exists o,
    addRows [] tableRows = inr o
    /\ groups = objectValues o
    /\ grouped (fun r => In r tableRows) o.
Proof.
  unfold groupSimilarViolations.
  destruct (addRows [] tableRows) as [e|o] eqn:Hrun; [discriminate|].
  intros H; inversion H; subst groups; clear H.
  exists o. split; [reflexivity|]. split; [reflexivity|].
  eapply addRows_grouped; [| |exact Hrun].
  - split; constructor.
  - apply Forall_forall. auto.
Qed.

(** C8: grouping is idempotent.  The grouping returns whenever no row's
    key names a member of [Object.prototype]; and when it has returned
    groups, grouping again the rows of these groups, laid out group
    after group, returns the very same groups: same keys, same member
    rows in the same order, same counts. *)
Theorem grouping_idempotent (tableRows : list string) :
  (forallb plainKey tableRows = true ->
   exists groups, groupSimilarViolations tableRows = inr groups)
  /\ (forall groups,
        groupSimilarViolations tableRows = inr groups ->
        groupSimilarViolations (flat_map rows groups) = inr groups).
Proof.
  split.
  - intros Hplain. unfold groupSimilarViolations.
    destruct (addRows_returns tableRows Hplain []) as [o ->]. eauto.
  - intros groups Hgroups.
    destruct (groups_grouped _ _ Hgroups) as (o & _ & -> & Hg).
    apply grouped_entries in Hg. destruct Hg as [Hnodup Hall].
    unfold objectValues at 1. rewrite flat_map_values.
    unfold groupSimilarViolations.
    rewrite (regroup _ (objectEntries o) [] Hnodup Hall). simpl.
    unfold objectValues. now rewrite objectEntries_idempotent.
Qed.

Lemma grouping_idempotent_witness :
  forallb plainKey sampleRows = true
  /\ groupSimilarViolations sampleRows = inr [altGroup; linkGroup]
  /\ groupSimilarViolations (rows altGroup ++ rows linkGroup)
     = inr [altGroup; linkGroup].
Proof.
  assert (Hfirst : groupSimilarViolations sampleRows
                   = inr [altGroup; linkGroup]) by reflexivity.
  split; [reflexivity|]. split; [exact Hfirst|].
  exact (proj2 (grouping_idempotent sampleRows) _ Hfirst).
Defined.

(** ** Rendering a group *)



(** A group returned by the grouping holds its member rows, which are
    rows of the table, their element descriptions and their number. *)
Lemma group_shape (tableRows : list string) (groups : list Group)
    (g : Group) :
  groupSimilarViolations tableRows = inr groups -> In g groups ->
  g = groupOf (fixInstructions g) (rows g)
  /\ rows g <> []
  /\ Forall (fun r => extractFixInstructions r = fixInstructions g
                      /\ In r tableRows) (rows g).
Proof.
  intros Hgroups Hin.
  destruct (groups_grouped _ _ Hgroups) as (o & _ & -> & Hg).
  apply grouped_entries in Hg. destruct Hg as [_ Hall].
  unfold objectValues in Hin. apply in_map_iff in Hin.
  destruct Hin as ([k g'] & Hsnd & Hin). simpl in Hsnd. subst g'.
  rewrite Forall_forall in Hall.
  destruct (Hall _ Hin) as (_ & Hshape & Hne & Hrows). simpl in *.
  assert (Hk : fixInstructions g = k) by (now rewrite Hshape).
  rewrite Hk. auto.
Qed.

(** A row whose key is not empty matched the pattern of
    [extractFixInstructions], which begins with a closed [<td>] cell: the
    row has a cell. *)
Lemma row_with_key_has_cell (row : string) :
  extractFixInstructions row <> EmptyString -> hasCell row = true.
Proof.
  unfold extractFixInstructions, fixInstructionsMatch, hasCell,
    extractElementInfo.
  destruct (cut "<td>" row) as [[before r1]|]; [|congruence].
  destruct (cut "</td>" r1) as [[cell r2]|]; [|congruence].
  intros _.
  destruct (firstCodeBlock cell) as [[location after]|]; [|reflexivity].
  destruct (firstCodeBlock after) as [[source rest]|]; reflexivity.
Qed.

(** The rows of a group with fix instructions all have a cell. *)
Lemma rows_of_keyed_group_have_cells (tableRows : list string)
    (groups : list Group) (g : Group) :
  groupSimilarViolations tableRows = inr groups -> In g groups ->
  fixInstructions g <> EmptyString ->
  forallb hasCell (rows g) = true.
Proof.
  intros Hgroups Hin Hkey.
  destruct (group_shape _ _ _ Hgroups Hin) as (_ & _ & Hrows).
  apply forallb_forall. intros row Hrow.
  rewrite Forall_forall in Hrows. destruct (Hrows row Hrow) as [Hk _].
  apply row_with_key_has_cell. congruence.
Qed.

(** Scenario B: seven rows with the same fix instructions form one group
    of count 7, rendered with three examples and [+ 4 more]. *)
Example scenarioB_one_group_of_seven :
  exists g,
    groupSimilarViolations sevenRows = inr [g]
    /\ count g = 7
    /\ renderGroup g
       = inr (consolidatedRow 7
                (template [ exampleBlock "img.a" "&lt;img&gt;";
                            exampleBlock "img.b" "&lt;img&gt;";
                            exampleBlock "img.c" "&lt;img&gt;" ])
                (Spec.moreLine 4)
                "Add an alt attribute").
Proof. eexists. repeat split. Qed.



End ReportGeneratorFacts.

(* ===================================================================== *)
(** * Strings: concatenation, length, substrings *)
(* ===================================================================== *)

Module StringFacts.
Local Open Scope string_scope.

Lemma string_app_assoc (a b c : string) : (a ++ b) ++ c = a ++ (b ++ c).
Proof. induction a as [|x a IH]; simpl; [reflexivity | now rewrite IH]. Qed.

Lemma string_app_nil_r (a : string) : a ++ EmptyString = a.
Proof. induction a as [|x a IH]; simpl; [reflexivity | now rewrite IH]. Qed.

Lemma string_length_app (a b : string) :
  String.length (a ++ b) = String.length a + String.length b.
Proof. induction a as [|x a IH]; simpl; [reflexivity | now rewrite IH]. Qed.

End StringFacts.

(* ===================================================================== *)
(** * Further properties of the export formatters *)
(* ===================================================================== *)

Module XmlEscapingFacts.
Import Js ExportFormatters XmlEscaping StringFacts.
Local Open Scope string_scope.

Lemma replaceAllChar_app (c : ascii) (by_ a b : string) :
  replaceAllChar c by_ (a ++ b)
  = replaceAllChar c by_ a ++ replaceAllChar c by_ b.
Proof.
  induction a as [|x a IH]; simpl; [reflexivity|].
  destruct (Ascii.eqb x c); simpl; rewrite IH.
  - now rewrite string_app_assoc.
  - reflexivity.
Qed.

Lemma replaceAllChar_cons (c x : ascii) (by_ s : string) :
  replaceAllChar c by_ (String x s)
  = replaceAllChar c by_ (String x EmptyString) ++ replaceAllChar c by_ s.
Proof. exact (replaceAllChar_app c by_ (String x EmptyString) s). Qed.

Ltac split_char c :=
  destruct (Ascii.eqb_spec c "&"%char) as [->|?];
  [|destruct (Ascii.eqb_spec c "<"%char) as [->|?];
    [|destruct (Ascii.eqb_spec c ">"%char) as [->|?];
      [|destruct (Ascii.eqb_spec c (ascii_of_nat 34)) as [->|?];
        [|destruct (Ascii.eqb_spec c "'"%char) as [->|?]]]]].

Lemma eqb_false (a b : ascii) : a <> b -> Ascii.eqb a b = false.
Proof. intros H. now destruct (Ascii.eqb_spec a b). Qed.

(** The five passes on a single character. *)
Lemma escapeXml_char (c : ascii) :
  escapeXml (String c EmptyString) = escapeChar c.
Proof.
  unfold escapeXml, escapeChar.
  split_char c; try reflexivity.
  repeat (simpl; rewrite ?eqb_false by assumption). reflexivity.
Qed.

Lemma escapeXml_app (a b : string) :
  escapeXml (a ++ b) = escapeXml a ++ escapeXml b.
Proof. unfold escapeXml. now rewrite !replaceAllChar_app. Qed.

Lemma escapeXml_each (text : string) : escapeXml text = escapeEach text.
Proof.
  induction text as [|c text IH]; [reflexivity|].
  change (String c text) with (String c EmptyString ++ text).
  rewrite escapeXml_app, escapeXml_char, IH. reflexivity.
Qed.

(** X1: the five successive replacements of [escapeXml] amount to one
    pass that replaces each of [&], [<], [>], the double quote and the
    apostrophe by its entity and copies every other character: an entity
    written by an earlier replacement is never escaped again. *)
Theorem escapeXml_single_pass (text : string) :
  escapeXml text = escapeEach text.
Proof.
  induction text as [|c text IH]; [reflexivity|].
  change (String c text) with (String c EmptyString ++ text).
  rewrite escapeXml_app, escapeXml_char, IH. reflexivity.
Qed.

Lemma noMarkupChar_app (a b : string) :
  noMarkupChar (a ++ b) = noMarkupChar a && noMarkupChar b.
Proof.
  induction a as [|x a IH]; simpl; [reflexivity|].
  now rewrite IH, andb_assoc.
Qed.

Lemma escapeChar_shape (c : ascii) :
  escapeChar c = "&amp;" \/ escapeChar c = "&lt;" \/ escapeChar c = "&gt;"
  \/ escapeChar c = "&quot;" \/ escapeChar c = "&apos;"
  \/ (escapeChar c = String c EmptyString
      /\ c <> "&"%char /\ markupChar c = false).
Proof.
  unfold escapeChar, markupChar.
  split_char c; auto 10.
Qed.

(** X2: the escaped text holds no [<], no [>], no double quote and no
    apostrophe, and each of its ampersands opens one of the five entities
    [&amp;], [&lt;], [&gt;], [&quot;], [&apos;]. *)
Theorem escapeXml_safe (text : string) :
  noMarkupChar (escapeXml text) = true
  /\ ampersandsOpenEntities (escapeXml text) = true.
Proof.
  rewrite escapeXml_each.
  induction text as [|c text [IHm IHa]]; [split; reflexivity|].
  cbn [escapeEach]. revert IHm IHa.
  generalize (escapeEach text) as rest. intros rest IHm IHa.
  destruct (escapeChar_shape c)
    as [-> | [-> | [-> | [-> | [-> | (-> & Hamp & Hmark)]]]]];
    try (split; [exact IHm | destruct rest; exact IHa]).
  split; simpl.
  - fold (markupChar c). rewrite Hmark. exact IHm.
  - rewrite (eqb_false _ _ Hamp). exact IHa.
Qed.

(** X3: [escapeXml] loses nothing: two texts with the same escaped form
    are the same text. *)
Theorem escapeXml_injective (a b : string) :
  escapeXml a = escapeXml b -> a = b.
Proof.
  rewrite !escapeXml_each. revert b.
  induction a as [|x a IH]; intros [|y b] H.
  - reflexivity.
  - exfalso. cbn [escapeEach] in H.
    destruct (escapeChar_shape y)
      as [E | [E | [E | [E | [E | (E & _)]]]]];
      rewrite E in H; discriminate.
  - exfalso. cbn [escapeEach] in H.
    destruct (escapeChar_shape x)
      as [E | [E | [E | [E | [E | (E & _)]]]]];
      rewrite E in H; discriminate.
  - cbn [escapeEach] in H.
    assert (Hxy : x = y /\ escapeEach a = escapeEach b).
    { unfold escapeChar in H.
      split_char x; split_char y;
        rewrite ?eqb_false in H by assumption;
        simpl in H; try discriminate;
        try (injection H as H; split; [reflexivity | exact H]);
        try (injection H as Hc H; split; [exact Hc | exact H]);
        try (injection H as Hc _; congruence). }
    destruct Hxy as [-> Hrest]. f_equal. now apply IH.
Qed.

Lemma escapeXml_injective_witness :
  escapeXml "a<b" = escapeXml "a<b" /\ "a<b" = "a<b".
Proof.
  split; [reflexivity|]. apply (escapeXml_injective "a<b" "a<b"). reflexivity.
Defined.

End XmlEscapingFacts.

Module SarifFacts.
Import Js ExportFormatters Sarif.

Lemma fold_left_add_shift {A} (f : A -> nat) (l : list A) (n : nat) :
  fold_left (fun sum v => sum + f v) l n = n + list_sum (map f l).
Proof.
  revert n. induction l as [|a l IH]; intros n; simpl; [lia|].
  rewrite IH. lia.
Qed.

(** X4: the SARIF report holds one result per affected node of every
    violation -- as many results as the executive summary counts
    violations -- and each result refers to a rule that the report
    declares, with the level that rule's impact maps to and the snippet
    of one of that violation's nodes. *)
Theorem sarif_results_match_rules (axe : Axe.Results) (url : string)
    (wcagLevel : list string) :
  let report := generateSARIFReport axe url wcagLevel in
  length (results report) = PDFGenerator.totalViolations axe
  /\ length (rules report) = length (Axe.violations axe)
  /\ forall r, In r (results report) ->
       locationUri r = url
       /\ exists rule,
            In rule (rules report)
            /\ sarifRuleId rule = ruleId r
            /\ shortDescription rule = messageText r
            /\ mapImpactToLevel (ruleImpact rule) = resultLevel r.
Proof.
  cbv zeta. unfold generateSARIFReport; simpl. repeat split.
  - unfold PDFGenerator.totalViolations, sarifResults.
    rewrite fold_left_add_shift. simpl.
    induction (Axe.violations axe) as [|v vs IH]; simpl; [reflexivity|].
    now rewrite length_app, length_map, IH.
  - unfold sarifRules. apply length_map.
  - unfold sarifResults in H. apply in_flat_map in H.
    destruct H as (v & _ & Hr). apply in_map_iff in Hr.
    now destruct Hr as (n & <- & _).
  - unfold sarifResults in H. apply in_flat_map in H.
    destruct H as (v & Hv & Hr). apply in_map_iff in Hr.
    destruct Hr as (n & <- & _).
    eexists. split; [apply in_map_iff; exists v; split; [reflexivity|exact Hv]|].
    simpl. auto.
Qed.

End SarifFacts.

(* ===================================================================== *)
(** * Further properties of the CI bulk handler *)
(* ===================================================================== *)

Module CiSummaryFacts.
Import CiTestUrls CiInvariant.

Lemma filter_partition_length {A} (f : A -> bool) (l : list A) :
  length (filter f l) + length (filter (fun a => negb (f a)) l) = length l.
Proof.
  induction l as [|a l IH]; simpl; [reflexivity|].
  destruct (f a); simpl; lia.
Qed.

Lemma forallb_filter_none {A} (f : A -> bool) (l : list A) :
  forallb f l = true <-> length (filter (fun a => negb (f a)) l) = 0.
Proof.
  induction l as [|a l IH]; simpl; [tauto|].
  destruct (f a); simpl; [exact IH|].
  split; [discriminate | intros H; lia].
Qed.

(** Whatever the options, the loop records the entries of a prefix of
    the pages, and [overallSuccess] tells whether all of them passed. *)
Lemma loop_records_prefix (opts : Options) (pages : list (string * answer)) :
  forall (acc : list UrlResult) (overall : bool),
  exists n,
    n <= length pages
    /\ fst (loop opts pages acc overall)
       = acc ++ map (entryOf opts) (firstn n pages)
    /\ snd (loop opts pages acc overall)
       = overall && forallb success (map (entryOf opts) (firstn n pages))
    /\ (continueOnFailure opts = true -> n = length pages).
Proof.
  induction pages as [|[url ans] rest IH]; intros acc overall.
  - exists 0. simpl. rewrite app_nil_r, andb_true_r. auto.
  - destruct ans as [testResults | message]; simpl.
    + destruct (urlSuccess opts testResults) eqn:Hok; simpl.
      * destruct (IH (acc ++ [Tested url true
                                (length (Axe.violations testResults))
                                (length (Axe.passes testResults))
                                (length (Axe.incomplete testResults))
                                (map detailOf (Axe.violations testResults))])
                     overall) as (n & Hn & Hfst & Hsnd & Hall).
        exists (S n). simpl. rewrite Hok, Hfst, Hsnd, <- app_assoc. simpl.
        repeat split; auto; lia.
      * destruct (continueOnFailure opts) eqn:Hcont; simpl.
        -- destruct (IH (acc ++ [Tested url false
                                (length (Axe.violations testResults))
                                (length (Axe.passes testResults))
                                (length (Axe.incomplete testResults))
                                (map detailOf (Axe.violations testResults))])
                     false) as (n & Hn & Hfst & Hsnd & Hall).
           exists (S n). simpl. rewrite Hok, Hfst, Hsnd, <- app_assoc. simpl.
           rewrite andb_false_r.
           repeat split; auto; lia.
        -- exists 1. simpl. rewrite Hok, andb_false_r.
           repeat split; auto; try lia; discriminate.
    + destruct (continueOnFailure opts) eqn:Hcont; simpl.
      * destruct (IH (acc ++ [Errored url message]) false)
          as (n & Hn & Hfst & Hsnd & Hall).
        exists (S n). simpl. rewrite Hfst, Hsnd, <- app_assoc. simpl.
        rewrite andb_false_r.
        repeat split; auto; lia.
      * exists 1. simpl. rewrite andb_false_r.
        repeat split; auto; try lia; discriminate.
Qed.

(** The report of the handler, from what the loop recorded. *)
Lemma handle_report (opts : Options) (pages : list (string * answer))
    (now : string) (code : nat) (body : Body)
    (launchError closeError : option string) :
  handle opts launchError pages closeError now = Respond code body ->
  exists n,
    n <= length pages
    /\ results body = map (entryOf opts) (firstn n pages)
    /\ bodySuccess body = forallb success (results body)
    /\ code = (if bodySuccess body then 200 else 422)
    /\ totalUrls (summary body) = length pages
    /\ testedUrls (summary body) = length (results body)
    /\ passedUrls (summary body) = length (filter success (results body))
    /\ failedUrls (summary body)
       = length (filter (fun r => negb (success r)) (results body))
    /\ (continueOnFailure opts = true -> n = length pages).
Proof.
  unfold handle. destruct pages as [|p pages']; [discriminate|].
  destruct launchError; [discriminate|].
  destruct (loop_records_prefix opts (p :: pages') [] true)
    as (n & Hn & Hfst & Hsnd & Hall).
  destruct (loop opts (p :: pages') [] true) as [rs overall].
  destruct closeError; [discriminate|].
  simpl in Hfst, Hsnd. subst rs overall.
  intros H. injection H as <- <-. exists n. simpl. auto 10.
Qed.

(** X5: with [continueOnFailure = true] every requested URL has an
    outcome in the report, in input order, whether audits fail or not:
    [testedUrls] equals [totalUrls]. *)
Theorem ci_continue_tests_every_url (opts : Options)
    (pages : list (string * answer)) (now : string) (code : nat)
    (body : Body) :
  continueOnFailure opts = true ->
  handle opts None pages None now = Respond code body ->
  map resultUrl (results body) = map fst pages
  /\ testedUrls (summary body) = totalUrls (summary body).
Proof.
  intros Hcont Hresp.
  destruct (handle_report _ _ _ _ _ _ _ Hresp)
    as (n & _ & Hrs & _ & _ & Htotal & Htested & _ & _ & Hall).
  specialize (Hall Hcont). subst n. rewrite firstn_all in Hrs.
  rewrite Htested, Htotal, Hrs, length_map. split; [|reflexivity].
  rewrite map_map. apply map_ext. intros [u [r|m]]; reflexivity.
Qed.

Lemma ci_continue_tests_every_url_witness :
  exists body,
    handle {| wcagLevel := ["wcag2a"]; failOnViolations := true;
              maxViolations := 0; continueOnFailure := true |}
           None threePages None "2025-01-01T00:01:00.000Z"
    = Respond 422 body
    /\ map resultUrl (results body) = map fst threePages.
Proof.
  eexists. split; [reflexivity|].
  eapply (ci_continue_tests_every_url
            {| wcagLevel := ["wcag2a"]; failOnViolations := true;
               maxViolations := 0; continueOnFailure := true |});
    reflexivity.
Defined.

(** X6: in every report of the bulk handler the URLs counted as passed
    and as failed add up to the URLs tested, and no more URLs are tested
    than were requested. *)
Theorem ci_summary_adds_up (opts : Options) (pages : list (string * answer))
    (now : string) (code : nat) (body : Body)
    (launchError closeError : option string) :
  handle opts launchError pages closeError now = Respond code body ->
  passedUrls (summary body) + failedUrls (summary body)
  = testedUrls (summary body)
  /\ testedUrls (summary body) <= totalUrls (summary body).
Proof.
  intros Hresp.
  destruct (handle_report _ _ _ _ _ _ _ Hresp)
    as (n & Hn & Hrs & _ & _ & Htotal & Htested & Hpassed & Hfailed & _).
  rewrite Hpassed, Hfailed, Htested, Htotal. split.
  - apply filter_partition_length.
  - rewrite Hrs, length_map, length_firstn. lia.
Qed.

Lemma ci_summary_adds_up_witness :
  exists body,
    handle stopOptions None threePages None "2025-01-01T00:01:00.000Z"
    = Respond 422 body
    /\ passedUrls (summary body) + failedUrls (summary body)
       = testedUrls (summary body).
Proof.
  eexists. split; [reflexivity|].
  eapply (fun H => proj1 (ci_summary_adds_up stopOptions threePages _ _ _
                            None None H)).
  reflexivity.
Defined.

(** X7: the bulk handler answers 200 exactly when its report says
    [success: true], which is exactly when no recorded outcome failed;
    otherwise it answers 422. *)
Theorem ci_status_reflects_outcomes (opts : Options)
    (pages : list (string * answer)) (now : string) (code : nat)
    (body : Body) (launchError closeError : option string) :
  handle opts launchError pages closeError now = Respond code body ->
  (code = 200 \/ code = 422)
  /\ (code = 200 <-> bodySuccess body = true)
  /\ (bodySuccess body = true <-> failedUrls (summary body) = 0)
  /\ (bodySuccess body = true <->
      forall r, In r (results body) -> success r = true).
Proof.
  intros Hresp.
  destruct (handle_report _ _ _ _ _ _ _ Hresp)
    as (n & _ & _ & Hsucc & Hcode & _ & _ & _ & Hfailed & _).
  rewrite Hfailed, Hcode, Hsucc.
  split; [destruct (forallb success (results body)); auto|].
  split; [destruct (forallb success (results body)); split;
          congruence || discriminate|].
  split; [apply forallb_filter_none | apply forallb_forall].
Qed.

Lemma ci_status_reflects_outcomes_witness :
  exists body,
    handle stopOptions None threePages None "2025-01-01T00:01:00.000Z"
    = Respond 422 body
    /\ (bodySuccess body = true <-> failedUrls (summary body) = 0).
Proof.
  eexists. split; [reflexivity|].
  exact (proj1 (proj2 (proj2
           (ci_status_reflects_outcomes stopOptions threePages
              "2025-01-01T00:01:00.000Z" 422 _ None None eq_refl)))).
Defined.

Lemma loop_all_pass (opts : Options) (pages : list (string * answer)) :
  failOnViolations opts = false ->
  Forall (fun p => exists r, snd p = Analyzed r) pages ->
  forall acc overall,
    loop opts pages acc overall
    = (acc ++ map (entryOf opts) pages, overall).
Proof.
  intros Hmode Hall.
  induction Hall as [|[u a] rest [r Hr] _ IH]; intros acc overall; simpl.
  - now rewrite app_nil_r.
  - simpl in Hr. subst a.
    assert (Hok : urlSuccess opts r = true)
      by (unfold urlSuccess; now rewrite Hmode).
    rewrite Hok. simpl. rewrite IH, <- app_assoc. reflexivity.
Qed.

(** X8: with [failOnViolations = false], a run in which no audit throws
    tests every URL and answers 200 with [success: true], whatever the
    violations found and whatever [continueOnFailure]. *)
Theorem ci_report_only_mode (opts : Options)
    (pages : list (string * answer)) (now : string) :
  failOnViolations opts = false ->
  pages <> [] ->
  Forall (fun p => exists r, snd p = Analyzed r) pages ->
  exists body,
    handle opts None pages None now = Respond 200 body
    /\ bodySuccess body = true
    /\ map resultUrl (results body) = map fst pages
    /\ failedUrls (summary body) = 0.
Proof.
  intros Hmode Hne Hall.
  unfold handle. destruct pages as [|p pages']; [contradiction|].
  rewrite (loop_all_pass opts _ Hmode Hall [] true). simpl app.
  eexists. split; [reflexivity|]. simpl.
  assert (Hpass : forall ps,
             Forall (fun p => exists r, snd p = Analyzed r) ps ->
             filter (fun r => negb (success r)) (map (entryOf opts) ps) = []).
  { induction 1 as [|[u a] rest [r Hr] _ IH]; simpl; [reflexivity|].
    simpl in Hr. subst a. simpl. unfold urlSuccess. rewrite Hmode. simpl.
    exact IH. }
  split; [reflexivity|]. split.
  - change (map resultUrl (map (entryOf opts) (p :: pages'))
            = map fst (p :: pages')).
    rewrite map_map. apply map_ext. intros [u [r|m]]; reflexivity.
  - change (length (filter (fun r => negb (success r))
                      (map (entryOf opts) (p :: pages'))) = 0).
    now rewrite (Hpass _ Hall).
Qed.

Lemma ci_report_only_mode_witness :
  exists body,
    handle {| wcagLevel := ["wcag2a"]; failOnViolations := false;
              maxViolations := 0; continueOnFailure := false |}
           None [("https://example.org/", Analyzed Samples.twoNodeViolation)]
           None "2025-01-01T00:01:00.000Z"
    = Respond 200 body
    /\ bodySuccess body = true.
Proof.
  destruct (ci_report_only_mode
              {| wcagLevel := ["wcag2a"]; failOnViolations := false;
                 maxViolations := 0; continueOnFailure := false |}
              [("https://example.org/", Analyzed Samples.twoNodeViolation)]
              "2025-01-01T00:01:00.000Z" eq_refl)
    as (body & Hresp & Hsucc & _).
  - discriminate.
  - repeat constructor. eexists. reflexivity.
  - exists body. split; assumption.
Defined.

End CiSummaryFacts.

(* ===================================================================== *)
(** * Further properties of the batch runner *)
(* ===================================================================== *)

Module BatchSessionFacts.
Import Js BatchTest BatchInvariant BatchSession.

Lemma enterIteration_shape (urls : list string) (i : nat)
    (bp : BatchProgress) :
  error bp = None -> endTime bp = None ->
  length (results bp) = i -> i <= length urls ->
  sessionShape urls (enterIteration urls i bp).
Proof.
  intros He Ht Hlen Hle. unfold enterIteration, sessionShape.
  destruct (nth_error urls i) as [u|] eqn:Hu; simpl.
  - auto.
  - split; [assumption|]. left. split; [assumption|].
    apply nth_error_None in Hu. lia.
Qed.

Lemma next_shape (PORT theBatchId : string) (urls : list string)
    (c c' : config) (ev : event) :
  consistent urls c -> sessionShape urls c ->
  next PORT theBatchId urls c ev = Some c' ->
  sessionShape urls c'.
Proof.
  intros [_ _ _ _ Hb Hp] Hshape Hstep.
  destruct c as [bp ph]; unfold sessionShape in Hshape; simpl in *.
  unfold next in Hstep; simpl in Hstep.
  destruct ph as [| i | |];
    destruct ev as [ | msg now | msg | tid now r | msg now | now ];
    try discriminate.
  - inversion Hstep; subst c'; clear Hstep. destruct Hshape as [He Ht].
    apply enterIteration_shape; auto; [now rewrite Hp | lia].
  - inversion Hstep; subst c'; clear Hstep. unfold sessionShape; simpl.
    split; [eauto|]. right. exists msg. auto.
  - inversion Hstep; subst c'; clear Hstep. unfold sessionShape; simpl.
    destruct Hshape as [He Ht]. split; [assumption|].
    right. exists msg. auto.
  - destruct Hp as [-> Hlt]. destruct Hshape as [He Ht].
    destruct (nth_error urls (length (results bp))) as [u|]; [|discriminate].
    inversion Hstep; subst c'; clear Hstep.
    apply enterIteration_shape; simpl; auto;
      rewrite ?length_app; simpl; lia.
  - destruct Hp as [-> Hlt]. destruct Hshape as [He Ht].
    destruct (nth_error urls (length (results bp))) as [u|]; [|discriminate].
    inversion Hstep; subst c'; clear Hstep.
    apply enterIteration_shape; simpl; auto;
      rewrite ?length_app; simpl; lia.
  - inversion Hstep; subst c'; clear Hstep. unfold sessionShape; simpl.
    destruct Hshape as [Ht Hcases]. split; [eauto|].
    destruct Hcases as [[He Hl] | (m & He & Hr)];
      [left; split; assumption | right; exists m; auto].
Qed.

Lemma run_shape (PORT theBatchId : string) (urls : list string)
    (evs : list event) :
  forall c c',
    consistent urls c -> sessionShape urls c ->
    run PORT theBatchId urls c evs = Some c' ->
    consistent urls c' /\ sessionShape urls c'.
Proof.
  induction evs as [|ev evs IH]; intros c c' Hc Hs Hrun; simpl in Hrun.
  - inversion Hrun; subst. auto.
  - destruct (next PORT theBatchId urls c ev) as [c1|] eqn:Hstep;
      [|discriminate].
    apply (IH c1 c'); [| |exact Hrun].
    + eapply BatchTestFacts.next_consistent; eauto.
    + eapply next_shape; eauto.
Qed.

Lemma reachable_shape (PORT theBatchId : string) (urls : list string)
    (started : string) (c : config) :
  reachable PORT theBatchId urls started c ->
  consistent urls c /\ sessionShape urls c.
Proof.
  intros [evs Hrun]. eapply run_shape; [| |exact Hrun].
  - apply BatchTestFacts.initial_consistent.
  - unfold sessionShape; simpl. auto.
Qed.

(** X9: a poller can tell that the batch is over from [endTime]: at every
    suspension point of the background task [endTime] is absent, and it
    is present once the task has returned. *)
Theorem endTime_marks_the_end (PORT theBatchId : string)
    (urls : list string) (started : string) (c : config) :
  reachable PORT theBatchId urls started c ->
  (endTime (progress c) <> None <-> at_ c = Done).
Proof.
  intros Hreach.
  destruct (reachable_shape _ _ _ _ _ Hreach) as [_ Hshape].
  unfold sessionShape in Hshape.
  destruct (at_ c).
  - destruct Hshape as [_ Ht]. split; [congruence | discriminate].
  - destruct Hshape as [_ Ht]. split; [congruence | discriminate].
  - destruct Hshape as [Ht _]. split; [congruence | discriminate].
  - destruct Hshape as [[t Ht] _]. split; [reflexivity | congruence].
Qed.

Lemma endTime_marks_the_end_witness :
  exists c,
    run "3001" "b1" Samples.scenarioUrls
        (initial "b1" Samples.scenarioUrls "2025-01-01T00:00:00.000Z")
        Samples.scenarioMidRun = Some c
    /\ (endTime (progress c) <> None <-> at_ c = Done).
Proof.
  eexists. split; [reflexivity|].
  apply (endTime_marks_the_end "3001" "b1" Samples.scenarioUrls
           "2025-01-01T00:00:00.000Z").
  exists Samples.scenarioMidRun. reflexivity.
Defined.

(** X10: a batch never stops midway.  When the background task has
    returned, either every requested URL has its outcome and the run
    carries no error, or the browser session could not be opened: then
    the error is recorded and there is no outcome at all.  The failure of
    a URL never sets the error of the run. *)
Theorem batch_all_or_nothing (PORT theBatchId : string)
    (urls : list string) (started : string) (c : config) :
  reachable PORT theBatchId urls started c ->
  at_ c = Done ->
  (error (progress c) = None
   /\ map url (results (progress c)) = urls
   /\ completedUrls (progress c) = totalUrls (progress c))
  \/ (exists msg,
        error (progress c) = Some msg
        /\ results (progress c) = []
        /\ completedUrls (progress c) = 0
        /\ failedUrls (progress c) = 0).
Proof.
  intros Hreach Hdone.
  destruct (reachable_shape _ _ _ _ _ Hreach)
    as [[Ht Hc Hf Ho _ _] Hshape].
  unfold sessionShape in Hshape. rewrite Hdone in Hshape.
  destruct Hshape as [_ [[He Hl] | (msg & He & Hr)]].
  - left. split; [assumption|]. split.
    + rewrite Ho, Hl. apply firstn_all.
    + congruence.
  - right. exists msg. rewrite Hf, Hc, Hr. auto.
Qed.

Lemma batch_all_or_nothing_witness :
  exists c,
    run "3001" "b1" Samples.scenarioUrls
        (initial "b1" Samples.scenarioUrls "2025-01-01T00:00:00.000Z")
        (fullRun Samples.scenarioAudits "2025-01-01T00:00:33.000Z") = Some c
    /\ at_ c = Done
    /\ map url (results (progress c)) = Samples.scenarioUrls.
Proof.
  eexists. split; [reflexivity|]. split; [reflexivity|].
  destruct (batch_all_or_nothing "3001" "b1" Samples.scenarioUrls
              "2025-01-01T00:00:00.000Z" _
              (ex_intro _ (fullRun Samples.scenarioAudits
                             "2025-01-01T00:00:33.000Z") eq_refl) eq_refl)
    as [(_ & Hurls & _) | (msg & He & _)].
  - exact Hurls.
  - discriminate He.
Defined.

(** X11: when the browser session cannot be opened for a non-empty
    request, the run does not end as [failed]: once the task has returned
    the recorded status is [completed], with the error message, no
    outcome and both counters at zero. *)
Theorem session_failure_ends_completed (PORT theBatchId : string)
    (urls : list string) (started : string) (c : config) (msg : string) :
  urls <> [] ->
  reachable PORT theBatchId urls started c ->
  at_ c = Done ->
  error (progress c) = Some msg ->
  status (progress c) = "completed"
  /\ results (progress c) = []
  /\ failedUrls (progress c) = 0
  /\ totalUrls (progress c) = length urls.
Proof.
  intros Hne Hreach Hdone Herr.
  destruct (reachable_shape _ _ _ _ _ Hreach)
    as [[Ht _ Hf _ _ Hp] Hshape].
  unfold sessionShape in Hshape. rewrite Hdone in Hshape, Hp.
  destruct Hshape as [_ [[He _] | (m & _ & Hr)]]; [congruence|].
  rewrite Hr in Hf. simpl in Hf.
  rewrite Hp, Hf, Ht.
  destruct urls; [contradiction|]. simpl. auto.
Qed.

Lemma session_failure_ends_completed_witness :
  exists c,
    run "3001" "b1" Samples.scenarioUrls
        (initial "b1" Samples.scenarioUrls "2025-01-01T00:00:00.000Z")
        [LaunchThrew "browserType.launch: Executable doesn't exist"
                     "2025-01-01T00:00:01.000Z"] = Some c
    /\ at_ c = Done
    /\ status (progress c) = "completed"
    /\ results (progress c) = [].
Proof.
  eexists. split; [reflexivity|]. split; [reflexivity|].
  match goal with
  | |- context [progress ?c] =>
      destruct (session_failure_ends_completed "3001" "b1"
                  Samples.scenarioUrls "2025-01-01T00:00:00.000Z" c
                  "browserType.launch: Executable doesn't exist")
        as (Hs & Hr & _)
  end.
  - discriminate.
  - exists [LaunchThrew "browserType.launch: Executable doesn't exist"
                        "2025-01-01T00:00:01.000Z"]. reflexivity.
  - reflexivity.
  - reflexivity.
  - split; assumption.
Defined.

End BatchSessionFacts.

(* ===================================================================== *)
(** * Further properties of the report consolidation *)
(* ===================================================================== *)

Module GroupingFacts.
Import Js ReportGenerator GroupInvariant ReportGeneratorFacts.

Local Abbreviation keyOf := extractFixInstructions.
Local Abbreviation memberRows := (flat_map (fun kv : string * Group => rows (snd kv))).

(** ** No row is lost *)

Lemma memberRows_updateOwn (row : string) (o : object Group) (k : string) :
  In k (map fst o) ->
  Permutation (memberRows (updateOwn o k (pushRow row)))
              (memberRows o ++ [row]).
Proof.
  induction o as [|[k0 g0] o IH]; simpl; [tauto|].
  destruct (String.eqb_spec k k0) as [->|Hne]; intros Hin; simpl.
  - rewrite <- !app_assoc. apply Permutation_app_head.
    apply Permutation_app_comm.
  - rewrite <- app_assoc. apply Permutation_app_head.
    apply IH. destruct Hin; [congruence | assumption].
Qed.

Lemma getOwn_Some_key {A} (o : object A) (k : string) (v : A) :
  getOwn o k = Some v -> In k (map fst o).
Proof.
  intros H. destruct (in_dec string_dec k (map fst o)) as [Hin|Hnot];
    [assumption|].
  apply getOwn_None in Hnot. congruence.
Qed.

Lemma addRow_keeps_rows (o o' : object Group) (row : string) :
  addRow o row = inr o' ->
  Permutation (memberRows o') (memberRows o ++ [row]).
Proof.
  unfold addRow.
  destruct (getOwn o (keyOf row)) as [g|] eqn:Hget.
  - intros H; inversion H; subst o'.
    apply memberRows_updateOwn. eapply getOwn_Some_key; eauto.
  - destruct (inheritedName (keyOf row)); [discriminate|].
    intros H; inversion H; subst o'.
    apply getOwn_None in Hget.
    rewrite (updateOwn_app_last _ _ _ _ Hget), flat_map_app. simpl.
    reflexivity.
Qed.

Lemma addRows_keeps_rows (rs : list string) :
  forall o o',
    addRows o rs = inr o' ->
    Permutation (memberRows o') (memberRows o ++ rs).
Proof.
  induction rs as [|row rs IH]; simpl; intros o o' Hrun.
  - inversion Hrun; subst. now rewrite app_nil_r.
  - destruct (addRow o row) as [e|o1] eqn:Hrow; [discriminate|].
    rewrite (IH _ _ Hrun), (addRow_keeps_rows _ _ _ Hrow), <- app_assoc.
    reflexivity.
Qed.

(** X12: grouping loses no row and invents none.  The member rows of the
    groups, taken together, are the rows of the table, each exactly once;
    so the counts of the groups add up to the number of rows, and every
    group has at least one row. *)
Theorem grouping_partitions_rows (tableRows : list string)
    (groups : list Group) :
  groupSimilarViolations tableRows = inr groups ->
  Permutation (flat_map rows groups) tableRows
  /\ list_sum (map count groups) = length tableRows
  /\ Forall (fun g => 1 <= count g) groups.
Proof.
  intros Hgroups.
  destruct (groups_grouped _ _ Hgroups) as (o & Hrun & -> & Hg).
  assert (Hperm : Permutation (flat_map rows (objectValues o)) tableRows).
  { unfold objectValues. rewrite flat_map_values.
    rewrite (Permutation_flat_map _ (objectEntries_perm o)).
    exact (addRows_keeps_rows _ _ _ Hrun). }
  assert (Hshape : Forall (fun g => count g = length (rows g) /\ rows g <> [])
                          (objectValues o)).
  { apply Forall_forall. intros g Hin.
    destruct (group_shape _ _ _ Hgroups Hin) as (Hs & Hne & _).
    split; [now rewrite Hs at 1 | assumption]. }
  split; [exact Hperm|]. split.
  - rewrite <- (Permutation_length Hperm).
    assert (Hsum : forall gs,
               Forall (fun g => count g = length (rows g) /\ rows g <> []) gs ->
               list_sum (map count gs) = length (flat_map rows gs)).
    { induction 1 as [|g gs [Hc _] _ IH]; simpl; [reflexivity|].
      rewrite length_app. lia. }
    exact (Hsum _ Hshape).
  - eapply Forall_impl; [|exact Hshape]. simpl. intros g [Hc Hne].
    rewrite Hc. destruct (rows g); [contradiction | simpl; lia].
Qed.

Lemma grouping_partitions_rows_witness :
  groupSimilarViolations sampleRows = inr [altGroup; linkGroup]
  /\ list_sum (map count [altGroup; linkGroup]) = length sampleRows.
Proof.
  split; [reflexivity|].
  exact (proj1 (proj2 (grouping_partitions_rows sampleRows _ eq_refl))).
Defined.

(** ** Each group is the rows of one key *)

Lemma updateOwn_In {A} (o : object A) (k' : string) (f : A -> A)
    (k : string) (v' : A) :
  NoDup (map fst o) ->
  In (k, v') (updateOwn o k' f) ->
  exists v, In (k, v) o /\ v' = if String.eqb k' k then f v else v.
Proof.
  induction o as [|[k0 v0] o IH]; simpl; [tauto|].
  intros Hnodup. inversion Hnodup as [|? ? Hnotin Hnodup']; subst.
  destruct (String.eqb_spec k' k0) as [->|Hne]; simpl.
  - intros [Heq | Hin].
    + inversion Heq; subst. exists v0. rewrite String.eqb_refl. auto.
    + exists v'. split; [now right|].
      destruct (String.eqb_spec k0 k) as [->|_]; [|reflexivity].
      exfalso. apply Hnotin. apply in_map_iff. now exists (k, v').
  - intros [Heq | Hin].
    + inversion Heq; subst. exists v'. split; [now left|].
      now destruct (String.eqb_spec k' k).
    + destruct (IH Hnodup' Hin) as (v & Hv & Hv'). exists v. auto.
Qed.

Lemma filter_nothing {A} (f : A -> bool) (l : list A) :
  (forall a, In a l -> f a = false) -> filter f l = [].
Proof.
  induction l as [|a l IH]; simpl; intros H; [reflexivity|].
  rewrite (H a (or_introl eq_refl)). apply IH. intros b Hb. apply H. now right.
Qed.

Lemma filter_key_snoc (k : string) (seen : list string) (row : string) :
  filter (fun r => String.eqb (keyOf r) k) (seen ++ [row])
  = filter (fun r => String.eqb (keyOf r) k) seen
    ++ (if String.eqb (keyOf row) k then [row] else []).
Proof. rewrite filter_app. simpl. now destruct (String.eqb (keyOf row) k). Qed.

(** While the rows [seen] are being added, each group holds the rows of
    its key, in the order seen, and every key seen has its group. *)
Lemma addRows_by_key (rs : list string) :
  forall o o' seen,
    NoDup (map fst o) ->
    Forall (fun kv => rows (snd kv)
                      = filter (fun r => String.eqb (keyOf r) (fst kv)) seen) o ->
    Forall (fun r => In (keyOf r) (map fst o)) seen ->
    addRows o rs = inr o' ->
    NoDup (map fst o')
    /\ Forall (fun kv => rows (snd kv)
                         = filter (fun r => String.eqb (keyOf r) (fst kv))
                                  (seen ++ rs)) o'
    /\ Forall (fun r => In (keyOf r) (map fst o')) (seen ++ rs).
Proof.
  induction rs as [|row rs IH]; simpl; intros o o' seen Hnodup Hrows Hkeys Hrun.
  - inversion Hrun; subst. now rewrite app_nil_r.
  - destruct (addRow o row) as [e|o1] eqn:Hrow; [discriminate|].
    replace (seen ++ row :: rs) with ((seen ++ [row]) ++ rs)
      by (now rewrite <- app_assoc).
    apply (IH o1 o' (seen ++ [row])); [| | |exact Hrun]; clear IH Hrun;
      unfold addRow in Hrow;
      destruct (getOwn o (keyOf row)) as [g|] eqn:Hget.
    + inversion Hrow; subst o1. now rewrite keys_updateOwn.
    + destruct (inheritedName (keyOf row)); [discriminate|].
      inversion Hrow; subst o1. apply getOwn_None in Hget.
      rewrite (updateOwn_app_last _ _ _ _ Hget), map_app. simpl.
      now apply NoDup_snoc.
    + inversion Hrow; subst o1. apply Forall_forall. intros [k g'] Hin.
      destruct (updateOwn_In _ _ _ _ _ Hnodup Hin) as (g0 & Hin0 & ->).
      rewrite Forall_forall in Hrows. specialize (Hrows _ Hin0).
      simpl in *. rewrite filter_key_snoc.
      destruct (String.eqb (keyOf row) k); simpl.
      * now rewrite Hrows.
      * now rewrite app_nil_r.
    + destruct (inheritedName (keyOf row)); [discriminate|].
      inversion Hrow; subst o1. apply getOwn_None in Hget.
      rewrite (updateOwn_app_last _ _ _ _ Hget).
      apply Forall_app. split.
      * apply Forall_forall. intros [k g'] Hin.
        rewrite Forall_forall in Hrows. specialize (Hrows _ Hin).
        simpl in *. rewrite filter_key_snoc.
        destruct (String.eqb_spec (keyOf row) k) as [Heq|_];
          [|now rewrite app_nil_r].
        exfalso. apply Hget. rewrite Heq.
        apply in_map_iff. now exists (k, g').
      * repeat constructor. simpl. rewrite filter_key_snoc.
        rewrite String.eqb_refl.
        replace (filter (fun r => String.eqb (keyOf r) (keyOf row)) seen)
          with (@nil string); [reflexivity|].
        symmetry. apply filter_nothing.
        intros r Hr. rewrite Forall_forall in Hkeys. specialize (Hkeys r Hr).
        destruct (String.eqb_spec (keyOf r) (keyOf row)) as [Heq|_];
          [|reflexivity].
        exfalso. apply Hget. now rewrite <- Heq.
    + inversion Hrow; subst o1. rewrite keys_updateOwn.
      apply Forall_app. split; [assumption|].
      repeat constructor. eapply getOwn_Some_key; eauto.
    + destruct (inheritedName (keyOf row)); [discriminate|].
      inversion Hrow; subst o1. apply getOwn_None in Hget.
      rewrite (updateOwn_app_last _ _ _ _ Hget), map_app. simpl.
      apply Forall_app. split.
      * eapply Forall_impl; [|exact Hkeys]. simpl. intros r Hr.
        apply in_or_app. now left.
      * repeat constructor. apply in_or_app. right. now left.
Qed.

(** X13: the groups are the classes of the rows by key.  The fix
    instructions of the groups are pairwise distinct, every row's key is
    the fix instructions of some group, and a group holds exactly the
    rows of the table that have its key, in their order in the table. *)
Theorem groups_are_key_classes (tableRows : list string)
    (groups : list Group) :
  groupSimilarViolations tableRows = inr groups ->
  NoDup (map fixInstructions groups)
  /\ (forall row, In row tableRows ->
        exists g, In g groups /\ fixInstructions g = keyOf row)
  /\ (forall g, In g groups ->
        rows g = filter (fun r => String.eqb (keyOf r) (fixInstructions g))
                        tableRows).
Proof.
  intros Hgroups.
  destruct (groups_grouped _ _ Hgroups) as (o & Hrun & -> & Hg).
  destruct (addRows_by_key tableRows [] o [] (NoDup_nil _)
              (Forall_nil _) (Forall_nil _) Hrun)
    as (Hnodup & Hrows & Hkeys).
  simpl in Hrows, Hkeys.
  pose proof (objectEntries_perm o) as Hperm.
  destruct (grouped_entries _ _ Hg) as [HnodupE HallE].
  assert (Hfix : map fixInstructions (objectValues o)
                 = map fst (objectEntries o)).
  { unfold objectValues. rewrite map_map.
    apply map_ext_in. intros [k g] Hin.
    rewrite Forall_forall in HallE.
    destruct (HallE _ Hin) as (_ & Hs & _). simpl in *. now rewrite Hs. }
  split; [now rewrite Hfix|]. split.
  - intros row Hrow. rewrite Forall_forall in Hkeys.
    specialize (Hkeys row Hrow).
    apply (Permutation_in _ (Permutation_map fst (Permutation_sym Hperm)))
      in Hkeys.
    rewrite <- Hfix in Hkeys. apply in_map_iff in Hkeys.
    destruct Hkeys as (g & Hk & Hin). eauto.
  - intros g Hin. unfold objectValues in Hin. apply in_map_iff in Hin.
    destruct Hin as ([k g'] & Hsnd & Hin). simpl in Hsnd. subst g'.
    rewrite Forall_forall in HallE.
    destruct (HallE _ Hin) as (_ & Hs & _). simpl in Hs.
    apply (Permutation_in _ Hperm) in Hin.
    rewrite Forall_forall in Hrows. specialize (Hrows _ Hin). simpl in Hrows.
    replace (fixInstructions g) with k by (now rewrite Hs).
    exact Hrows.
Qed.

Lemma groups_are_key_classes_witness :
  groupSimilarViolations sampleRows = inr [altGroup; linkGroup]
  /\ rows altGroup
     = filter (fun r => String.eqb (keyOf r) "Add an alt attribute")
              sampleRows.
Proof.
  split; [reflexivity|].
  exact (proj2 (proj2 (groups_are_key_classes sampleRows _ eq_refl))
           altGroup (or_introl eq_refl)).
Defined.

End GroupingFacts.

Module TableFacts.
Import Js ReportGenerator GroupInvariant ReportGeneratorFacts.

Local Abbreviation keyOf := extractFixInstructions.

(** ** When the grouping throws *)

Lemma addRows_plain (rs : list string) :
  forall o o',
    grouped (fun _ => True) o ->
    addRows o rs = inr o' -> forallb plainKey rs = true.
Proof.
  induction rs as [|row rs IH]; simpl; intros o o' Hg Hrun; [reflexivity|].
  destruct (addRow o row) as [e|o1] eqn:Hrow; [discriminate|].
  rewrite (IH o1 o'); [|eapply addRow_grouped; eauto|exact Hrun].
  rewrite andb_true_r. unfold plainKey. unfold addRow in Hrow.
  destruct (getOwn o (keyOf row)) as [g|] eqn:Hget.
  - destruct Hg as [_ Hall]. rewrite Forall_forall in Hall.
    assert (Hin : In (keyOf row, g) o).
    { clear - Hget. induction o as [|[k v] o IH]; simpl in *; [discriminate|].
      destruct (String.eqb_spec (keyOf row) k) as [->|_].
      - inversion Hget. now left.
      - right. now apply IH. }
    destruct (Hall _ Hin) as (Hplain & _). simpl in Hplain. now rewrite Hplain.
  - destruct (inheritedName (keyOf row)); [discriminate | reflexivity].
Qed.

Lemma addRows_error (rs : list string) :
  forall o e,
    addRows o rs = inl e ->
    e = "TypeError: Cannot read properties of undefined (reading 'push')"%string.
Proof.
  induction rs as [|row rs IH]; simpl; intros o e Hrun; [discriminate|].
  destruct (addRow o row) as [e1|o1] eqn:Hrow.
  - inversion Hrun; subst. unfold addRow in Hrow.
    destruct (getOwn o (keyOf row)); [discriminate|].
    destruct (inheritedName (keyOf row)); now inversion Hrow.
  - eapply IH; eauto.
Qed.

Lemma grouping_returns (tableRows : list string) :
  forallb plainKey tableRows = true ->
  exists groups, groupSimilarViolations tableRows = inr groups.
Proof.
  intros Hplain. unfold groupSimilarViolations.
  destruct (addRows_returns tableRows Hplain []) as [o Ho].
  rewrite Ho. eauto.
Qed.

(** X14: the grouping throws exactly when the key of some row names a
    member that object literals inherit (a second cell that reads
    [constructor], [toString], ...): it then throws a [TypeError], and
    otherwise it returns groups. *)
Theorem grouping_throws_on_inherited_key (tableRows : list string) :
  (forallb plainKey tableRows = true <->
   exists groups, groupSimilarViolations tableRows = inr groups)
  /\ (forallb plainKey tableRows = false <->
      groupSimilarViolations tableRows
      = inl "TypeError: Cannot read properties of undefined (reading 'push')"%string).
Proof.
  assert (Hiff : forallb plainKey tableRows = true <->
                 exists groups, groupSimilarViolations tableRows = inr groups).
  { split.
    - apply grouping_returns.
    - intros [groups Hgroups].
      destruct (groups_grouped _ _ Hgroups) as (o & Hrun & _ & _).
      apply (addRows_plain tableRows [] o); [split; constructor | exact Hrun]. }
  split; [exact Hiff|]. split.
  - intros Hbad. unfold groupSimilarViolations.
    destruct (addRows [] tableRows) as [e|o] eqn:Hrun.
    + now rewrite (addRows_error _ _ _ Hrun).
    + assert (Hgood : forallb plainKey tableRows = true).
      { apply Hiff. unfold groupSimilarViolations. rewrite Hrun. eauto. }
      congruence.
  - intros Hthrow.
    destruct (forallb plainKey tableRows) eqn:Hplain; [|reflexivity].
    destruct (proj1 Hiff eq_refl) as [groups Hgroups]. congruence.
Qed.

Lemma grouping_throws_on_inherited_key_witness :
  forallb plainKey ["<td>1</td><td>constructor</td>"%string] = false
  /\ groupSimilarViolations ["<td>1</td><td>constructor</td>"%string]
     = inl "TypeError: Cannot read properties of undefined (reading 'push')"%string.
Proof.
  split; [reflexivity|].
  exact (proj1 (proj2 (grouping_throws_on_inherited_key
                         ["<td>1</td><td>constructor</td>"%string])) eq_refl).
Defined.

(** ** Rendering every group *)

Lemma mapThrowing_returns {A B} (f : A -> sum string B) (l : list A) :
  Forall (fun a => exists b, f a = inr b) l ->
  exists bs, mapThrowing f l = inr bs /\ length bs = length l.
Proof.
  induction 1 as [|a l [b Hb] _ (bs & Hbs & Hlen)]; simpl.
  - exists []. auto.
  - rewrite Hb. simpl. rewrite Hbs. simpl. exists (b :: bs). simpl. auto.
Qed.

Lemma in_firstn {A} (n : nat) (l : list A) (a : A) :
  In a (firstn n l) -> In a l.
Proof.
  intros H. rewrite <- (firstn_skipn n l). apply in_or_app. now left.
Qed.

Lemma elementBlock_returns (row : string) :
  hasCell row = true ->
  exists b, elementBlock (extractElementInfo row) = inr b.
Proof.
  unfold hasCell. destruct (extractElementInfo row); [discriminate|].
  simpl. eauto.
Qed.




(** X16: the rebuilding of a table never throws on rows that have a cell
    and a key that is not an inherited name: it returns the table with
    its header row followed by one rendered row per group. *)
Theorem optimizeTable_returns (whole headerRow : string)
    (dataRows : list string) :
  dataRows <> [] ->
  forallb plainKey dataRows = true ->
  forallb hasCell dataRows = true ->
  exists groups rendered,
    groupSimilarViolations dataRows = inr groups
    /\ mapThrowing renderGroup groups = inr rendered
    /\ length rendered = length groups
    /\ optimizeTable whole (headerRow :: dataRows)
       = inr (template [ tableOpen;
                         template ["<tr>"; headerRow; "</tr>"];
                         template rendered;
                         "</table>" ]%string).
Proof.
  intros Hne Hplain Hcells.
  destruct (grouping_returns dataRows Hplain) as [groups Hgroups].
  destruct (mapThrowing_returns renderGroup groups)
    as (rendered & Hrendered & Hlen).
  { apply Forall_forall. intros g Hin.
    destruct (group_shape _ _ _ Hgroups Hin) as (Hshape & _ & Hrows).
    unfold renderGroup. destruct (count g =? 1)%nat; [simpl; eauto|].
    unfold createConsolidatedRow.
    destruct (mapThrowing_returns elementBlock (firstn 3 (elements g)))
      as (blocks & Hblocks & _).
    - apply Forall_forall. intros el Hel. apply in_firstn in Hel.
      rewrite Hshape in Hel. simpl in Hel. apply in_map_iff in Hel.
      destruct Hel as (row & <- & Hrow). apply elementBlock_returns.
      rewrite Forall_forall in Hrows. destruct (Hrows _ Hrow) as [_ Hfrom].
      rewrite forallb_forall in Hcells. now apply Hcells.
    - rewrite Hblocks. simpl. eauto. }
  exists groups, rendered. repeat split; try assumption.
  unfold optimizeTable. destruct dataRows as [|r rs]; [contradiction|].
  rewrite Hgroups. simpl. rewrite Hrendered. reflexivity.
Qed.

Lemma optimizeTable_returns_witness :
  exists html,
    optimizeTable "<table></table>" ("<th>Element</th><th>Fix</th>" :: sampleRows)
    = inr html.
Proof.
  destruct (optimizeTable_returns "<table></table>"
              "<th>Element</th><th>Fix</th>" sampleRows)
    as (groups & rendered & _ & _ & _ & Hhtml).
  - discriminate.
  - reflexivity.
  - reflexivity.
  - eexists. exact Hhtml.
Defined.

(** ** Tables whose rows all differ *)

Lemma entries_all_named {A} (o : object A) :
  Forall (fun kv => arrayIndex (fst kv) = None) o -> objectEntries o = o.
Proof.
  intros Hall.
  destruct (entries_in_order (@nil (N * (string * A))) o
              (SSorted_nil _) (Forall_nil _) Hall) as [Hi Hn].
  unfold objectEntries. simpl in Hi, Hn. now rewrite Hi, Hn.
Qed.

(** X17: when the rows of a table have pairwise distinct keys, none of
    which is an inherited name or an array index, the rebuilt table holds
    the very same rows in the same order: nothing is consolidated and
    nothing moves. *)
Theorem distinct_rows_are_kept (whole headerRow : string)
    (dataRows : list string) :
  dataRows <> [] ->
  NoDup (map keyOf dataRows) ->
  forallb plainKey dataRows = true ->
  Forall (fun row => arrayIndex (keyOf row) = None) dataRows ->
  groupSimilarViolations dataRows
  = inr (map (fun row => groupOf (keyOf row) [row]) dataRows)
  /\ optimizeTable whole (headerRow :: dataRows)
     = inr (template
              [ tableOpen;
                template ["<tr>"; headerRow; "</tr>"];
                template (map (fun row => template ["<tr>"; row; "</tr>"])
                              dataRows);
                "</table>" ]%string).
Proof.
  intros Hne Hnodup Hplain Hnamed.
  set (entries := map (fun row => (keyOf row, groupOf (keyOf row) [row]))
                      dataRows).
  assert (Hkeys : map fst entries = map keyOf dataRows).
  { unfold entries. rewrite map_map. reflexivity. }
  assert (Hflat : flat_map (fun kv : string * Group => rows (snd kv)) entries
                  = dataRows).
  { unfold entries. clear. induction dataRows as [|r rs IH]; simpl;
      [reflexivity | now rewrite IH]. }
  assert (Hrun : addRows [] dataRows = inr entries).
  { rewrite <- Hflat at 1.
    apply (regroup (fun _ => True) entries []); simpl.
    - now rewrite Hkeys.
    - unfold entries. apply Forall_forall. intros kv Hin.
      apply in_map_iff in Hin. destruct Hin as (row & <- & Hrow).
      rewrite forallb_forall in Hplain. specialize (Hplain _ Hrow).
      unfold plainKey in Hplain. apply negb_true_iff in Hplain.
      repeat split; simpl; auto; try discriminate. }
  assert (Hgroups : groupSimilarViolations dataRows
                    = inr (map (fun row => groupOf (keyOf row) [row]) dataRows)).
  { unfold groupSimilarViolations. rewrite Hrun. unfold objectValues.
    rewrite entries_all_named.
    - unfold entries. rewrite map_map. reflexivity.
    - unfold entries. apply Forall_forall. intros kv Hin.
      apply in_map_iff in Hin. destruct Hin as (row & <- & Hrow).
      rewrite Forall_forall in Hnamed. now apply Hnamed. }
  split; [exact Hgroups|].
  unfold optimizeTable. destruct dataRows as [|r rs]; [contradiction|].
  rewrite Hgroups. cbn [bind Monad_either].
  assert (Hrender : forall l,
             mapThrowing renderGroup
               (map (fun row => groupOf (keyOf row) [row]) l)
             = inr (map (fun row => template ["<tr>"; row; "</tr>"]%string) l)).
  { induction l as [|x l IH]; [reflexivity|].
    cbn [map mapThrowing]. rewrite IH. reflexivity. }
  rewrite Hrender. reflexivity.
Qed.

Lemma distinct_rows_are_kept_witness :
  optimizeTable "<table></table>"
    [ "<th>Element</th><th>Fix</th>";
      sampleRow "img.logo" "Add an alt attribute";
      sampleRow "a.more" "Give the link a discernible name" ]%string
  = inr (template
           [ tableOpen;
             "<tr><th>Element</th><th>Fix</th></tr>";
             template
               [ template ["<tr>"; sampleRow "img.logo" "Add an alt attribute";
                           "</tr>"];
                 template ["<tr>";
                           sampleRow "a.more" "Give the link a discernible name";
                           "</tr>"] ];
             "</table>" ]%string).
Proof.
  refine (proj2 (distinct_rows_are_kept "<table></table>"
                   "<th>Element</th><th>Fix</th>"
                   [ sampleRow "img.logo" "Add an alt attribute";
                     sampleRow "a.more" "Give the link a discernible name" ]
                   _ _ _ _)).
  - discriminate.
  - repeat constructor; simpl; intuition discriminate.
  - reflexivity.
  - repeat constructor.
Defined.

End TableFacts.

(* ===================================================================== *)
(** * Further properties of the executive summary statistics *)
(* ===================================================================== *)

Module SummaryFacts.
Import Js PDFGenerator Categories.

(** ** Recommendations *)



(** ** Top categories *)

Local Abbreviation descending :=
  (StronglySorted (fun a b : string * nat => snd b <= snd a)).






(** The counts of an object of categories: its keys are distinct and
    every count is positive. *)
Local Abbreviation counted :=
  (fun cats : object nat =>
     NoDup (map fst cats) /\ Forall (fun kv => 1 <= snd kv) cats).









(** ** Bounds of the score *)

(** X20: for a result of 1 to 200 evaluated rules the score is an
    integer from 0 to 100; it is 100 when every rule passed and 0 when
    none did. *)
Theorem score_bounds (results : Axe.Results) :
  0 < totalRules results <= 200 ->
  exists z,
    score results = Finite z
    /\ (0 <= z <= 100)%Z
    /\ (length (Axe.passes results) = totalRules results -> z = 100%Z)
    /\ (length (Axe.passes results) = 0 -> z = 0%Z).
Proof.
  intros Hbound.
  assert (Hp0 : length (Axe.passes results) <= totalRules results)
    by (unfold totalRules; lia).
  pose proof (PDFGeneratorFacts.scoresAgreeUpTo_sound
                200 _ _ PDFGeneratorFacts.scores_agree_200 Hbound Hp0)
    as Hall.
  unfold ScoreCheck.scoreAgrees in Hall. unfold score.
  destruct (scoreOf (length (Axe.passes results)) (totalRules results))
    as [z| |]; try discriminate.
  exists z. split; [reflexivity|].
  apply andb_prop in Hall. destruct Hall as [Hrange Htie].
  apply andb_prop in Hrange. destruct Hrange as [Hlo Hhi].
  apply Z.leb_le in Hlo, Hhi.
  assert (Hrange : (Spec.exactScore (length (Axe.passes results))
                                    (totalRules results) - 1 <= z
                    <= Spec.exactScore (length (Axe.passes results))
                                       (totalRules results))%Z) by lia.
  clear Hlo Hhi.
  assert (Htie' : Spec.tie (length (Axe.passes results)) (totalRules results)
                  = false ->
                  z = Spec.exactScore (length (Axe.passes results))
                                      (totalRules results)).
  { intros Hnot. rewrite Hnot in Htie. simpl in Htie.
    now apply Z.eqb_eq in Htie. }
  clear Htie. rename Htie' into Htie.
  set (p := length (Axe.passes results)) in *.
  set (t := totalRules results) in *.
  assert (Hp : p <= t) by exact Hp0.
  unfold Spec.exactScore, Spec.tie in *.
  set (P := Z.of_nat p) in *. set (T := Z.of_nat t) in *.
  assert (HT : (0 < T)%Z) by (subst T; lia).
  assert (HP : (0 <= P <= T)%Z) by (subst P T; lia).
  pose proof (Z.div_mod (200 * P + T) (2 * T) ltac:(lia)) as Hdm1.
  pose proof (Z.mod_pos_bound (200 * P + T) (2 * T) ltac:(lia)) as Hb1.
  pose proof (Z.div_mod (200 * P) (2 * T) ltac:(lia)) as Hdm2.
  pose proof (Z.mod_pos_bound (200 * P) (2 * T) ltac:(lia)) as Hb2.
  set (q1 := ((200 * P + T) / (2 * T))%Z) in *.
  set (r1 := ((200 * P + T) mod (2 * T))%Z) in *.
  set (q2 := ((200 * P) / (2 * T))%Z) in *.
  set (r2 := ((200 * P) mod (2 * T))%Z) in *.
  assert (Hq1 : (0 <= q1 <= 100)%Z).
  { split.
    - apply Z.div_pos; lia.
    - enough (q1 < 101)%Z by lia.
      apply Z.div_lt_upper_bound; lia. }
  assert (Hq2 : (0 <= q2)%Z) by (apply Z.div_pos; lia).
  assert (Hall1 : P = T -> q1 = 100%Z).
  { intros ->. subst q1.
    replace (200 * T + T)%Z with (T + 100 * (2 * T))%Z by lia.
    rewrite Z.div_add by lia. rewrite Z.div_small by lia. reflexivity. }
  assert (Hnone1 : P = 0%Z -> q1 = 0%Z).
  { intros ->. subst q1. apply Z.div_small. lia. }
  destruct (Z.eqb_spec r2 T) as [Heq|Hneq].
  - (* a tie: some rule passed and some rule did not *)
    assert (HPpos : (T <= 200 * P)%Z) by nia.
    assert (Hq1pos : (1 <= q1)%Z)
      by (apply Z.div_le_lower_bound; lia).
    repeat split; try lia.
    intros Hall. exfalso.
    assert (HPT : P = T) by (subst P T; lia).
    rewrite HPT, Heq in Hdm2.
    assert (T * 199 = T * (2 * q2))%Z by lia.
    assert (199 = 2 * q2)%Z by (apply (Z.mul_reg_l _ _ T); lia).
    lia.
  - specialize (Htie eq_refl). subst z.
    repeat split; lia.
Qed.

Lemma score_bounds_witness :
  0 < totalRules ScoreCheck.fiftyPasses <= 200
  /\ score ScoreCheck.fiftyPasses = Finite 100.
Proof.
  assert (Hb : 0 < totalRules ScoreCheck.fiftyPasses <= 200)
    by (split; [apply Nat.ltb_lt | apply Nat.leb_le]; reflexivity).
  split; [exact Hb|].
  destruct (score_bounds ScoreCheck.fiftyPasses Hb) as (z & Hz & _ & Hall & _).
  rewrite Hz. f_equal. apply Hall. reflexivity.
Defined.

End SummaryFacts.

(* ===================================================================== *)
(** * Properties of the file of URLs *)
(* ===================================================================== *)

Module UrlFileFacts.
Import Js ReportGenerator UrlFile.
Local Open Scope string_scope.

Lemma trimStart_blank (s : string) :
  trimStart s = EmptyString <-> blank s = true.
Proof.
  induction s as [|c s IH]; simpl; [tauto|].
  destruct (isWhiteSpace c); simpl; [exact IH|].
  split; discriminate.
Qed.

Lemma trimStart_head (s : string) (c : ascii) (r : string) :
  trimStart s = String c r -> isWhiteSpace c = false.
Proof.
  induction s as [|a s IH]; simpl; [discriminate|].
  destruct (isWhiteSpace a) eqn:Ha; [exact IH|].
  intros [= <- _]. exact Ha.
Qed.

Lemma trimEnd_head (c : ascii) (r : string) :
  isWhiteSpace c = false ->
  exists kept, trimEnd (String c r) = String c kept.
Proof.
  intros Hc. simpl. rewrite Hc.
  destruct (trimEnd r); eauto.
Qed.

Lemma trimEnd_idempotent (s : string) : trimEnd (trimEnd s) = trimEnd s.
Proof.
  induction s as [|c s IH]; simpl; [reflexivity|].
  destruct (trimEnd s) as [|k kept] eqn:Hkept.
  - destruct (isWhiteSpace c) eqn:Hc; simpl; [reflexivity|].
    now rewrite Hc.
  - change (trimEnd (String c (String k kept))) with
      (match trimEnd (String k kept) with
       | EmptyString => if isWhiteSpace c then EmptyString
                        else String c EmptyString
       | kept' => String c kept'
       end).
    now rewrite IH.
Qed.

Lemma trim_idempotent (s : string) : trim (trim s) = trim s.
Proof.
  unfold trim. destruct (trimStart s) as [|c r] eqn:Hstart; [reflexivity|].
  pose proof (trimStart_head _ _ _ Hstart) as Hc.
  destruct (trimEnd_head c r Hc) as [kept Hkept].
  rewrite Hkept. simpl trimStart. rewrite Hc, <- Hkept.
  apply trimEnd_idempotent.
Qed.

Lemma trim_blank (s : string) : trim s = EmptyString <-> blank s = true.
Proof.
  rewrite <- trimStart_blank. unfold trim.
  destruct (trimStart s) as [|c r] eqn:Hstart; [simpl; tauto|].
  pose proof (trimStart_head _ _ _ Hstart) as Hc.
  destruct (trimEnd_head c r Hc) as [kept ->].
  split; discriminate.
Qed.

Lemma truthy_trim (s : string) : truthy (trim s) = negb (blank s).
Proof.
  destruct (blank s) eqn:Hb.
  - apply trim_blank in Hb. now rewrite Hb.
  - destruct (trim s) eqn:Ht; [|reflexivity].
    apply trim_blank in Ht. congruence.
Qed.

Lemma trimStart_oneLine (s : string) :
  oneLine s = true -> oneLine (trimStart s) = true.
Proof.
  induction s as [|c s IH]; simpl; [auto|].
  intros H. destruct (isWhiteSpace c); [|exact H].
  apply andb_prop in H. now apply IH.
Qed.

Lemma trimEnd_oneLine (s : string) :
  oneLine s = true -> oneLine (trimEnd s) = true.
Proof.
  induction s as [|c s IH]; simpl; [auto|].
  intros H. apply andb_prop in H. destruct H as [Hc Hs].
  specialize (IH Hs).
  destruct (trimEnd s) as [|k kept].
  - destruct (isWhiteSpace c); simpl; [reflexivity|]. now rewrite Hc.
  - change (oneLine (String c (String k kept)))
      with (negb (Ascii.eqb c "010"%char) && oneLine (String k kept)).
    now rewrite Hc, IH.
Qed.

Lemma trim_oneLine (s : string) : oneLine s = true -> oneLine (trim s) = true.
Proof. intros H. now apply trimEnd_oneLine, trimStart_oneLine. Qed.

Lemma splitLines_cons (content : string) :
  exists line lines, splitLines content = line :: lines.
Proof.
  induction content as [|c s (line & lines & IH)]; simpl; [eauto|].
  destruct (Ascii.eqb c "010"%char); [eauto|]. rewrite IH. eauto.
Qed.

Lemma splitLines_oneLine (content : string) :
  Forall (fun line => oneLine line = true) (splitLines content).
Proof.
  induction content as [|c s IH]; simpl; [repeat constructor|].
  destruct (Ascii.eqb c "010"%char) eqn:Hc.
  - constructor; [reflexivity | exact IH].
  - destruct (splitLines s) as [|line lines]; [repeat constructor; simpl;
                                                now rewrite Hc|].
    inversion IH; subst. constructor; [|assumption].
    simpl. now rewrite Hc.
Qed.

Lemma splitLines_blank (content : string) :
  forallb blank (splitLines content) = blank content.
Proof.
  induction content as [|c s IH]; simpl; [reflexivity|].
  destruct (Ascii.eqb_spec c "010"%char) as [->|Hc].
  - simpl. exact IH.
  - destruct (splitLines_cons s) as (line & lines & Hs).
    rewrite Hs in *. simpl in *. now rewrite <- IH, andb_assoc.
Qed.

Lemma splitLines_single (line : string) :
  oneLine line = true -> splitLines line = [line].
Proof.
  induction line as [|c s IH]; simpl; [reflexivity|].
  intros H. apply andb_prop in H. destruct H as [Hc Hs].
  apply negb_true_iff in Hc. rewrite Hc, (IH Hs). reflexivity.
Qed.

Lemma splitLines_line (line rest : string) :
  oneLine line = true ->
  splitLines (line ++ nl ++ rest) = line :: splitLines rest.
Proof.
  induction line as [|c s IH]; simpl; [reflexivity|].
  intros H. apply andb_prop in H. destruct H as [Hc Hs].
  apply negb_true_iff in Hc. rewrite Hc. simpl in IH. now rewrite (IH Hs).
Qed.

Lemma clean_spec (url : string) :
  clean url = true <->
  url <> EmptyString /\ trim url = url /\ oneLine url = true.
Proof.
  unfold clean. rewrite !andb_true_iff, String.eqb_eq.
  destruct url; simpl; intuition congruence.
Qed.

Lemma parseUrls_filtered (lines : list string) :
  Forall (fun line => oneLine line = true) lines ->
  Forall (fun url => clean url = true)
         (map trim (filter (fun url => truthy (trim url)) lines)).
Proof.
  induction 1 as [|line lines Hline _ IH]; simpl; [constructor|].
  destruct (truthy (trim line)) eqn:Htruthy; [|exact IH].
  simpl. constructor; [|exact IH].
  unfold clean. rewrite Htruthy, trim_idempotent, String.eqb_refl.
  now rewrite trim_oneLine.
Qed.

Lemma parseUrls_none (lines : list string) :
  map trim (filter (fun url => truthy (trim url)) lines) = []
  <-> forallb blank lines = true.
Proof.
  induction lines as [|line lines IH]; simpl; [tauto|].
  rewrite truthy_trim. destruct (blank line); simpl; [exact IH|].
  split; discriminate.
Qed.

Lemma splitLines_blank_none (urlsContent : string) :
  parseUrls urlsContent = [] <-> blank urlsContent = true.
Proof.
  unfold parseUrls. rewrite parseUrls_none. now rewrite splitLines_blank.
Qed.

(** X21: every URL read from the file is non-empty, neither starts nor
    ends with white space, and holds no line feed.  The command finds no
    URL, and throws [No URLs found in file], exactly when the file holds
    nothing but white space; otherwise it goes on with the parsed
    URLs. *)
Theorem url_file_entries_are_clean (urlsContent : string) :
  Forall (fun url => clean url = true) (parseUrls urlsContent)
  /\ (parseUrls urlsContent = [] <-> blank urlsContent = true)
  /\ (blank urlsContent = true ->
      readUrls urlsContent = inl "No URLs found in file")
  /\ (blank urlsContent = false ->
      readUrls urlsContent = inr (parseUrls urlsContent)).
Proof.
  pose proof (splitLines_blank_none urlsContent) as Hnone.
  split; [apply parseUrls_filtered, splitLines_oneLine|].
  split; [exact Hnone|]. unfold readUrls. split.
  - intros Hblank. apply Hnone in Hblank. now rewrite Hblank.
  - intros Hblank. destruct (parseUrls urlsContent) eqn:Hurls; [|reflexivity].
    assert (blank urlsContent = true) by now apply Hnone.
    congruence.
Qed.

Lemma url_file_entries_are_clean_witness :
  readUrls (" https://example.org/ " ++ nl ++ nl ++ "https://example.com/a")
  = inr ["https://example.org/"; "https://example.com/a"].
Proof.
  exact (proj2 (proj2 (proj2 (url_file_entries_are_clean
           (" https://example.org/ " ++ nl ++ nl ++ "https://example.com/a"))))
           eq_refl).
Defined.

(** X22: a list of clean URLs written one per line is read back as
    that same list.  In particular, writing the URLs read from a file one
    per line and reading them again gives the same URLs. *)
Theorem url_file_round_trip :
  (forall urls,
      Forall (fun url => clean url = true) urls ->
      parseUrls (joinLines urls) = urls)
  /\ (forall urlsContent,
        parseUrls (joinLines (parseUrls urlsContent))
        = parseUrls urlsContent).
Proof.
  assert (Hback : forall urls,
             Forall (fun url => clean url = true) urls ->
             parseUrls (joinLines urls) = urls).
  { intros urls Hclean. unfold parseUrls, joinLines.
    induction Hclean as [|url rest Hurl Hrest IH]; [reflexivity|].
    apply clean_spec in Hurl. destruct Hurl as (Hne & Htrim & Hline).
    assert (Htruthy : truthy (trim url) = true)
      by (rewrite Htrim; now destruct url).
    destruct rest as [|next rest'].
    - change (String.concat nl [url]) with url.
      rewrite (splitLines_single _ Hline).
      cbn [filter map]. rewrite Htruthy. cbn [map].
      now rewrite Htrim.
    - change (String.concat nl (url :: next :: rest'))
        with (url ++ nl ++ String.concat nl (next :: rest')).
      rewrite (splitLines_line _ _ Hline).
      cbn [filter map]. rewrite Htruthy. cbn [map].
      now rewrite Htrim, IH. }
  split; [exact Hback|].
  intros urlsContent. apply Hback.
  apply parseUrls_filtered, splitLines_oneLine.
Qed.

Lemma url_file_round_trip_witness :
  parseUrls (joinLines ["https://example.org/"; "https://example.com/a b"])
  = ["https://example.org/"; "https://example.com/a b"].
Proof.
  apply (proj1 url_file_round_trip
           ["https://example.org/"; "https://example.com/a b"]).
  repeat constructor.
Defined.

End UrlFileFacts.

(* ===================================================================== *)
(** * Properties of the screenshot capture *)
(* ===================================================================== *)

Module ScreenshotFacts.
Import Js ScreenshotCapture.

Section Loops.
Variable pathJoin : list string -> string.
Variable captured : nat -> nat -> bool.
Variables testId baseDir : string.

Local Abbreviation entry := (entry pathJoin testId baseDir).
Local Abbreviation nodeLoop := (nodeLoop pathJoin captured testId baseDir).
Local Abbreviation violationLoop :=
  (violationLoop pathJoin captured testId baseDir).

(** The loops only push to the array they are given. *)
Lemma nodeLoop_acc (v : Axe.Rule) (i : nat) (nodes : list Axe.Node) :
  forall j acc, nodeLoop v i nodes j acc = acc ++ nodeLoop v i nodes j [].
Proof.
  induction nodes as [|node rest IH]; intros j acc; simpl.
  - now rewrite app_nil_r.
  - destruct (captured i j).
    + rewrite IH, (IH _ [_]). now rewrite <- app_assoc.
    + apply IH.
Qed.

Lemma nodeLoop_cons (v : Axe.Rule) (i : nat) (node : Axe.Node)
    (rest : list Axe.Node) (j : nat) :
  nodeLoop v i (node :: rest) j []
  = (if captured i j then [entry v i node j] else [])
    ++ nodeLoop v i rest (S j) [].
Proof.
  simpl. destruct (captured i j); [|reflexivity].
  now rewrite nodeLoop_acc.
Qed.

Lemma violationLoop_acc (vs : list Axe.Rule) :
  forall i acc, violationLoop vs i acc = acc ++ violationLoop vs i [].
Proof.
  induction vs as [|v rest IH]; intros i acc; simpl.
  - now rewrite app_nil_r.
  - rewrite IH, (IH _ (nodeLoop _ _ _ _ [])), nodeLoop_acc.
    now rewrite <- app_assoc.
Qed.

Lemma violationLoop_cons (v : Axe.Rule) (rest : list Axe.Rule) (i : nat) :
  violationLoop (v :: rest) i []
  = nodeLoop v i (Axe.nodes v) 0 [] ++ violationLoop rest (S i) [].
Proof. simpl. now rewrite violationLoop_acc. Qed.

(** What the inner loop pushes. *)
Lemma nodeLoop_In (v : Axe.Rule) (i : nat) (nodes : list Axe.Node) :
  forall j s,
    In s (nodeLoop v i nodes j [])
    <-> exists b node,
          nth_error nodes b = Some node
          /\ captured i (j + b) = true
          /\ s = entry v i node (j + b).
Proof.
  induction nodes as [|node rest IH]; intros j s.
  - simpl. split; [tauto|]. intros (b & n & Hn & _). now destruct b.
  - rewrite nodeLoop_cons, in_app_iff, IH. split.
    + intros [Hhead | (b & n & Hn & Hc & Hs)].
      * destruct (captured i j) eqn:Hc; [|contradiction].
        destruct Hhead as [<-|[]]. exists 0, node.
        rewrite Nat.add_0_r. auto.
      * exists (S b), n. rewrite Nat.add_succ_r. auto.
    + intros ([|b] & n & Hn & Hc & Hs).
      * left. rewrite Nat.add_0_r in *. simpl in Hn. injection Hn as <-.
        rewrite Hc. now left.
      * right. exists b, n. rewrite Nat.add_succ_r in *. auto.
Qed.

Lemma violationLoop_In (vs : list Axe.Rule) :
  forall i s,
    In s (violationLoop vs i [])
    <-> exists a j v node,
          nth_error vs a = Some v
          /\ nth_error (Axe.nodes v) j = Some node
          /\ captured (i + a) j = true
          /\ s = entry v (i + a) node j.
Proof.
  induction vs as [|v rest IH]; intros i s.
  - simpl. split; [tauto|]. intros (a & j & w & n & Hw & _). now destruct a.
  - rewrite violationLoop_cons, in_app_iff, IH, nodeLoop_In. split.
    + intros [(b & n & Hn & Hc & Hs) | (a & j & w & n & Hw & Hn & Hc & Hs)].
      * exists 0, b, v, n. rewrite Nat.add_0_r. auto.
      * exists (S a), j, w, n. rewrite Nat.add_succ_r. auto.
    + intros ([|a] & j & w & n & Hw & Hn & Hc & Hs).
      * left. rewrite Nat.add_0_r in *. simpl in Hw. injection Hw as <-.
        exists j, n. auto.
      * right. exists a, j, w, n. rewrite Nat.add_succ_r in *. auto.
Qed.

Lemma sorted_app {A} (R : A -> A -> Prop) (l1 l2 : list A) :
  StronglySorted R l1 -> StronglySorted R l2 ->
  (forall a b, In a l1 -> In b l2 -> R a b) ->
  StronglySorted R (l1 ++ l2).
Proof.
  induction 1 as [|a l1 Hl1 IH Ha]; intros Hl2 Hcross; simpl; [assumption|].
  constructor.
  - apply IH; [assumption|]. intros x y Hx Hy. apply Hcross; simpl; auto.
  - apply Forall_app. split; [assumption|].
    apply Forall_forall. intros y Hy. apply Hcross; simpl; auto.
Qed.

Lemma nodeLoop_sorted (v : Axe.Rule) (i : nat) (nodes : list Axe.Node) :
  forall j, StronglySorted before (nodeLoop v i nodes j []).
Proof.
  induction nodes as [|node rest IH]; intros j; [constructor|].
  rewrite nodeLoop_cons. apply sorted_app; [| apply IH |].
  - destruct (captured i j); repeat constructor.
  - intros a b Ha Hb. destruct (captured i j); [|contradiction].
    destruct Ha as [<-|[]]. apply nodeLoop_In in Hb.
    destruct Hb as (k & n & _ & _ & ->). right. simpl. lia.
Qed.

Lemma violationLoop_sorted (vs : list Axe.Rule) :
  forall i, StronglySorted before (violationLoop vs i []).
Proof.
  induction vs as [|v rest IH]; intros i; [constructor|].
  rewrite violationLoop_cons.
  apply sorted_app; [apply nodeLoop_sorted | apply IH |].
  intros a b Ha Hb. apply nodeLoop_In in Ha. apply violationLoop_In in Hb.
  destruct Ha as (k & n & _ & _ & ->).
  destruct Hb as (a' & j & w & m & _ & _ & _ & ->).
  left. simpl. lia.
Qed.

Lemma nodeLoop_length (v : Axe.Rule) (i : nat) (nodes : list Axe.Node) :
  forall j,
    length (nodeLoop v i nodes j []) <= length nodes
    /\ ((forall a b, captured a b = true) ->
        length (nodeLoop v i nodes j []) = length nodes).
Proof.
  induction nodes as [|node rest IH]; intros j; [simpl; auto|].
  rewrite nodeLoop_cons, length_app. destruct (IH (S j)) as [Hle Hall].
  split.
  - destruct (captured i j); simpl; lia.
  - intros Hc. rewrite (Hall Hc), Hc. reflexivity.
Qed.

Lemma violationLoop_length (vs : list Axe.Rule) :
  forall i,
    length (violationLoop vs i [])
    <= list_sum (map (fun v => length (Axe.nodes v)) vs)
    /\ ((forall a b, captured a b = true) ->
        length (violationLoop vs i [])
        = list_sum (map (fun v => length (Axe.nodes v)) vs)).
Proof.
  induction vs as [|v rest IH]; intros i; [simpl; auto|].
  rewrite violationLoop_cons, length_app. simpl.
  destruct (IH (S i)) as [Hle Hall].
  destruct (nodeLoop_length v i (Axe.nodes v) 0) as [Hle' Hall'].
  split; [lia|]. intros Hc. now rewrite (Hall Hc), (Hall' Hc).
Qed.

End Loops.

(** X23: the screenshot entries stand for exactly the violation nodes
    whose element capture gave an image: each entry carries the 1-based
    positions of its violation and of its node, with the rule, impact,
    description and element of that node.  The entries are listed by
    violation and then by node, none twice; there are at most as many as
    the summary counts violations, and exactly as many when every capture
    gives an image. *)
Theorem screenshots_identify_nodes
    (pathJoin : list string -> string) (captured : nat -> nat -> bool)
    (testId baseDir : string) (results : Axe.Results) :
  exists data,
    captureViolationScreenshots pathJoin captured testId baseDir None results
    = inr data
    /\ (forall s,
          In s (violationScreenshots data)
          <-> exists i j v node,
                nth_error (Axe.violations results) i = Some v
                /\ nth_error (Axe.nodes v) j = Some node
                /\ captured i j = true
                /\ s = entry pathJoin testId baseDir v i node j)
    /\ StronglySorted before (violationScreenshots data)
    /\ length (violationScreenshots data)
       <= PDFGenerator.totalViolations results
    /\ ((forall i j, captured i j = true) ->
        length (violationScreenshots data)
        = PDFGenerator.totalViolations results).
Proof.
  eexists. split; [reflexivity|]. simpl.
  unfold PDFGenerator.totalViolations.
  rewrite SarifFacts.fold_left_add_shift. simpl.
  split; [|split; [apply violationLoop_sorted | apply violationLoop_length]].
  intros s. apply violationLoop_In.
Qed.

Lemma screenshots_identify_nodes_witness :
  exists data,
    captureViolationScreenshots (String.concat "/") (fun _ _ => true)
      "t1" "/srv/reports" None Samples.twoNodeViolation
    = inr data
    /\ length (violationScreenshots data) = 2.
Proof.
  destruct (screenshots_identify_nodes (String.concat "/") (fun _ _ => true)
              "t1" "/srv/reports" Samples.twoNodeViolation)
    as (data & Hdata & _ & _ & _ & Hall).
  exists data. split; [exact Hdata|].
  rewrite Hall; reflexivity.
Defined.

(** ** File names *)

Local Open Scope string_scope.

Lemma lacks_app_inj (c : ascii) (a a' r r' : string) :
  lacks c a = true -> lacks c a' = true ->
  a ++ String c r = a' ++ String c r' -> a = a' /\ r = r'.
Proof.
  revert a'. induction a as [|x a IH]; intros [|x' a']; simpl;
    intros Ha Ha' Heq.
  - injection Heq as <-. auto.
  - injection Heq as <- _. now rewrite Ascii.eqb_refl in Ha'.
  - injection Heq as -> _. now rewrite Ascii.eqb_refl in Ha.
  - injection Heq as <- Heq.
    apply andb_prop in Ha, Ha'.
    destruct (IH a' (proj2 Ha) (proj2 Ha') Heq) as [-> ->]. auto.
Qed.

Lemma numberToString_lacks (c : ascii) (n : nat) :
  (nat_of_ascii c < 48 \/ 57 < nat_of_ascii c)%nat ->
  lacks c (numberToString n) = true.
Proof.
  intros Hc. unfold numberToString.
  assert (Hdigit : forall d : ascii,
             (48 <= nat_of_ascii d <= 57)%nat -> Ascii.eqb d c = false).
  { intros d Hd. apply Ascii.eqb_neq. intros ->. lia. }
  induction (Nat.to_uint n) as [|d IH|d IH|d IH|d IH|d IH|d IH|d IH|d IH
                                |d IH|d IH];
    cbn [NilEmpty.string_of_uint lacks]; [reflexivity|..];
    rewrite IH, Hdigit; try reflexivity; vm_compute; lia.
Qed.

Lemma numberToString_inj (n m : nat) :
  numberToString n = numberToString m -> n = m.
Proof.
  unfold numberToString. intros H.
  apply Unsigned.to_uint_inj.
  apply (f_equal NilEmpty.uint_of_string) in H.
  rewrite !NilEmpty.usu in H. now injection H.
Qed.

Lemma screenshotName_inj (i j i' j' : nat) :
  screenshotName i j = screenshotName i' j' -> i = i' /\ j = j'.
Proof.
  unfold screenshotName, template. simpl String.concat.
  intros H. injection H as H.
  destruct (lacks_app_inj "-" _ _ _ _
              (numberToString_lacks "-" (i + 1) ltac:(left; vm_compute; lia))
              (numberToString_lacks "-" (i' + 1) ltac:(left; vm_compute; lia)) H)
    as [Hi Hrest].
  injection Hrest as Hrest.
  destruct (lacks_app_inj "." _ _ _ _
              (numberToString_lacks "." (j + 1) ltac:(left; vm_compute; lia))
              (numberToString_lacks "." (j' + 1) ltac:(left; vm_compute; lia)) Hrest)
    as [Hj _].
  apply numberToString_inj in Hi, Hj. lia.
Qed.

Lemma string_app_inv_head (p a b : string) : p ++ a = p ++ b -> a = b.
Proof.
  induction p as [|c p IH]; simpl; [auto|]. intros H. injection H as H. auto.
Qed.

(** X24: two element captures never share a file name: the name
    determines the violation and the node.  Hence the screenshot
    addresses of the entries of a capture are pairwise distinct. *)
Theorem screenshot_names_distinct
    (pathJoin : list string -> string) (captured : nat -> nat -> bool)
    (testId baseDir : string) (results : Axe.Results) :
  (forall i j i' j',
      screenshotName i j = screenshotName i' j' -> i = i' /\ j = j')
  /\ exists data,
       captureViolationScreenshots pathJoin captured testId baseDir None
                                   results
       = inr data
       /\ NoDup (map screenshot (violationScreenshots data)).
Proof.
  split; [apply screenshotName_inj|].
  eexists. split; [reflexivity|]. simpl.
  pose proof (violationLoop_sorted pathJoin captured testId baseDir
                (Axe.violations results) 0) as Hsorted.
  pose proof (fun s => proj1 (violationLoop_In pathJoin captured testId
                                baseDir (Axe.violations results) 0 s))
    as Hentries.
  induction Hsorted as [|s l Hl IH Hs]; simpl; [constructor|].
  constructor.
  - intros Hin. apply in_map_iff in Hin. destruct Hin as (s' & Heq & Hs').
    rewrite Forall_forall in Hs. specialize (Hs s' Hs').
    destruct (Hentries s (or_introl eq_refl))
      as (a & j & v & n & _ & _ & _ & ->).
    destruct (Hentries s' (or_intror Hs'))
      as (a' & j' & v' & n' & _ & _ & _ & ->).
    cbn [screenshot ScreenshotCapture.entry] in Heq.
    unfold template in Heq. cbn [String.concat] in Heq.
    apply (string_app_inv_head "/reports/screenshots/") in Heq.
    apply (string_app_inv_head testId) in Heq.
    apply (string_app_inv_head "/") in Heq.
    apply screenshotName_inj in Heq.
    unfold before in Hs. simpl in Hs. lia.
  - apply IH. intros s' Hs'. apply Hentries. now right.
Qed.

End ScreenshotFacts.

(* ===================================================================== *)
(** * Properties of the CI handler of one URL and of the command line *)
(* ===================================================================== *)

Module CiTestUrlFacts.
Import Js CiTestUrl.

Lemma entryNodes_sum (vs : list Axe.Rule) :
  list_sum (map entryNodes (map violationEntry vs))
  = list_sum (map (fun v => length (Axe.nodes v)) vs).
Proof. rewrite map_map. reflexivity. Qed.

(** X25: for a request with a URL and a format other than [junit] and
    [sarif], when the audit returns and the browser closes, the handler
    answers the JSON report: with status 200 when [success] is true and
    422 otherwise, where [success] holds exactly when violations are not
    to fail the test or their number is within [maxViolations].  The
    summary counts the four lists of the result, the affected nodes of the
    listed violations add up to the violations the summary statistics
    count, and the screenshots are no more than those, none when they are
    not asked for. *)
Theorem ci_single_url_json (opts : Options)
    (pathJoin : list string -> string) (captured : nat -> nat -> bool)
    (testId reportsDir : string) (setupError : option string)
    (u : string) (results : Axe.Results) (now : string) :
  u <> EmptyString ->
  format opts <> "junit" -> format opts <> "sarif" ->
  exists body,
    handle opts pathJoin captured testId reportsDir setupError
           (Str u) (CiTestUrls.Analyzed results) None now
    = Json (if success body then 200 else 422) body
    /\ (success body = true
        <-> failOnViolations opts = false
            \/ length (Axe.violations results) <= maxViolations opts)
    /\ violationCount (summary body) = length (violations body)
    /\ violationCount (summary body) + passCount (summary body)
       + incompleteCount (summary body) + inapplicableCount (summary body)
       = PDFGenerator.totalRules results
    /\ list_sum (map entryNodes (violations body))
       = PDFGenerator.totalViolations results
    /\ length (screenshots body) <= PDFGenerator.totalViolations results
    /\ (includeScreenshots opts = false -> screenshots body = []).
Proof.
  intros Hu Hjunit Hsarif. unfold handle.
  destruct u as [|c u']; [contradiction|].
  apply String.eqb_neq in Hjunit, Hsarif. rewrite Hjunit, Hsarif.
  eexists (mkBody _ _ _ _ _ _ _). split; [reflexivity|]. simpl.
  unfold PDFGenerator.totalViolations, PDFGenerator.totalRules.
  rewrite SarifFacts.fold_left_add_shift, entryNodes_sum, length_map. simpl.
  repeat split; try reflexivity.
  - unfold passed. intros H. apply orb_prop in H.
    destruct H as [H|H]; [left; now apply negb_true_iff in H|].
    right. now apply Nat.leb_le.
  - unfold passed. intros [H|H]; [now rewrite H|].
    apply Nat.leb_le in H. rewrite H. apply orb_true_r.
  - unfold screenshotsOf.
    destruct (includeScreenshots opts && _); [|simpl; lia].
    destruct setupError; simpl; [lia|].
    apply ScreenshotFacts.violationLoop_length.
  - unfold screenshotsOf. now intros ->.
Qed.

Lemma ci_single_url_json_witness :
  exists body,
    handle {| wcagLevel := ["wcag2a"]; failOnViolations := true;
              maxViolations := 0; includeScreenshots := true;
              format := "json" |}
           (String.concat "/") (fun _ _ => true) "t1" "/srv/reports" None
           (Str "https://example.org/")
           (CiTestUrls.Analyzed Samples.twoNodeViolation) None
           "2025-01-01T00:01:00.000Z"
    = Json 422 body
    /\ list_sum (map entryNodes (violations body)) = 2.
Proof.
  destruct (ci_single_url_json
              {| wcagLevel := ["wcag2a"]; failOnViolations := true;
                 maxViolations := 0; includeScreenshots := true;
                 format := "json" |}
              (String.concat "/") (fun _ _ => true) "t1" "/srv/reports" None
              "https://example.org/" Samples.twoNodeViolation
              "2025-01-01T00:01:00.000Z")
    as (body & Hbody & _ & _ & _ & Hnodes & _); try discriminate.
  exists body. split; [|exact Hnodes].
  rewrite Hbody. injection Hbody as _ <-. reflexivity.
Defined.

End CiTestUrlFacts.

Module CliFacts.
Import Js.

(** The impact of a violation is a string, as the rule engine gives it
    for a violation. *)
Local Abbreviation impactIsString :=
  (fun v : Axe.Rule =>
     match Axe.impact v with Str _ => true | _ => false end).

Lemma impactPrints_entries (vs : list Axe.Rule) :
  forallb Cli.impactPrints (firstn 5 (map CiTestUrl.violationEntry vs))
  = forallb impactIsString (firstn 5 vs).
Proof.
  rewrite firstn_map. generalize (firstn 5 vs). intros l.
  induction l as [|v l IH]; simpl; [reflexivity|]. now rewrite IH.
Qed.

(** X26: the exit code of [test-url].  The command exits with 0
    exactly when the request has a URL, the audit returns, the browser
    closes, the output is written, and either the format is [junit] or
    [sarif], or the test passed and the impacts of the first five
    violations are strings; in every other case it exits with 1.  So with
    the format [junit] or [sarif] the command exits with 0 however many
    violations the page has. *)
Theorem cli_test_url_exit_code (opts : CiTestUrl.Options)
    (pathJoin : list string -> string) (captured : nat -> nat -> bool)
    (testId reportsDir : string) (setupError : option string)
    (url : value) (audit : CiTestUrls.answer) (closeError : option string)
    (now : string) (writeFails : bool) :
  let exit :=
    Cli.testUrlExit
      (Some (CiTestUrl.handle opts pathJoin captured testId reportsDir
                              setupError url audit closeError now))
      writeFails in
  (exit = 0 \/ exit = 1)
  /\ (exit = 0
      <-> writeFails = false /\ closeError = None
          /\ (exists u, url = Str u /\ u <> EmptyString)
          /\ exists results,
               audit = CiTestUrls.Analyzed results
               /\ (CiTestUrl.format opts = "junit"
                   \/ CiTestUrl.format opts = "sarif"
                   \/ (CiTestUrl.passed opts results = true
                       /\ forallb impactIsString
                                  (firstn 5 (Axe.violations results))
                          = true))).
Proof.
  cbv zeta. unfold Cli.testUrlExit.
  destruct writeFails.
  { split; [now right|]. split; [discriminate|]. now intros [H _]. }
  unfold CiTestUrl.handle.
  destruct url as [| |[|c u]];
    try (split; [now right|]; split; [discriminate|];
         intros (_ & _ & (u' & Hu & Hne) & _); congruence).
  destruct audit as [results|message];
    [|split; [now right|]; split; [discriminate|];
      intros (_ & _ & _ & r & Hr & _); discriminate].
  destruct closeError as [message|];
    [split; [now right|]; split; [discriminate|];
     intros (_ & Hc & _); discriminate|].
  assert (Hurl : exists u0, Str (String c u) = Str u0 /\ u0 <> EmptyString)
    by (eexists; split; [reflexivity | discriminate]).
  destruct (String.eqb_spec (CiTestUrl.format opts) "junit") as [Hj|Hj].
  { split; [now left|]. split; [|reflexivity]. intros _.
    repeat split; auto. exists results. auto. }
  destruct (String.eqb_spec (CiTestUrl.format opts) "sarif") as [Hs|Hs].
  { split; [now left|]. split; [|reflexivity]. intros _.
    repeat split; auto. exists results. auto. }
  cbn [CiTestUrl.violations CiTestUrl.success].
  rewrite impactPrints_entries.
  destruct (forallb impactIsString (firstn 5 (Axe.violations results)))
    eqn:Himpacts;
    destruct (CiTestUrl.passed opts results) eqn:Hpassed;
    (split; [auto|]);
    (split;
     [ try discriminate; intros _; repeat split; auto;
       exists results; auto
     | try reflexivity;
       intros (_ & _ & _ & r & Hr & Hcases); injection Hr as <-;
       destruct Hcases as [?|[?|[? ?]]]; congruence ]).
Qed.

Lemma forallb_combine_snd {A B} (f : B -> bool) (l : list A) (l' : list B) :
  length l' = length l ->
  forallb (fun p => f (snd p)) (combine l l') = forallb f l'.
Proof.
  revert l'. induction l as [|a l IH]; intros [|b l']; simpl;
    try discriminate; [reflexivity|].
  intros H. injection H as H. now rewrite IH.
Qed.

(** [overallSuccess] after the loop: no page failed. *)
Lemma loop_overall (opts : CiTestUrls.Options)
    (pages : list (string * CiTestUrls.answer)) :
  forall acc overall,
    snd (CiTestUrls.loop opts pages acc overall)
    = overall
      && forallb (fun p => negb (CiTestUrls.fails opts (snd p))) pages.
Proof.
  induction pages as [|[url [r|m]] rest IH]; intros acc overall; simpl.
  - now rewrite andb_true_r.
  - destruct (CiTestUrls.urlSuccess opts r); simpl.
    + apply IH.
    + destruct (CiTestUrls.continueOnFailure opts); simpl.
      * rewrite IH. simpl. now rewrite andb_false_r.
      * now rewrite andb_false_r.
  - destruct (CiTestUrls.continueOnFailure opts); simpl.
    + rewrite IH. simpl. now rewrite andb_false_r.
    + now rewrite andb_false_r.
Qed.

(** X27: the exit code of [test-urls] against the bulk handler.  The
    command exits with 0 exactly when the file holds a URL, the browser
    session opens and closes, the output is written, and the audit of no
    URL of the file fails (none throws, none exceeds the threshold);
    otherwise it exits with 1, whatever [continueOnFailure]. *)
Theorem cli_test_urls_exit_code (opts : CiTestUrls.Options)
    (urlsContent : string) (answers : list CiTestUrls.answer)
    (launchError closeError : option string) (now : string)
    (writeFails : bool) :
  let server := fun urls =>
    Some (CiTestUrls.handle opts launchError (combine urls answers)
                            closeError now) in
  let exit := Cli.testUrlsExit (Some urlsContent) server writeFails in
  length answers = length (UrlFile.parseUrls urlsContent) ->
  (exit = 0 \/ exit = 1)
  /\ (exit = 0
      <-> UrlFile.blank urlsContent = false
          /\ launchError = None /\ closeError = None
          /\ writeFails = false
          /\ forallb (fun a => negb (CiTestUrls.fails opts a)) answers
             = true).
Proof.
  cbv zeta. intros Hlen. unfold Cli.testUrlsExit, UrlFile.readUrls.
  destruct (UrlFile.blank urlsContent) eqn:Hblank.
  { apply UrlFileFacts.splitLines_blank_none in Hblank.
    rewrite Hblank. split; [now right|]. split; [discriminate|].
    now intros [H _]. }
  destruct (UrlFile.parseUrls urlsContent) as [|url urls] eqn:Hurls.
  { apply UrlFileFacts.splitLines_blank_none in Hurls. congruence. }
  destruct writeFails.
  { split; [now right|]. split; [discriminate|].
    now intros (_ & _ & _ & H & _). }
  destruct answers as [|answer answers']; [discriminate|].
  unfold CiTestUrls.handle. cbn [combine].
  destruct launchError;
    [split; [now right|]; split; [discriminate|];
     now intros (_ & H & _)|].
  pose proof (loop_overall opts ((url, answer) :: combine urls answers')
                [] true) as Hoverall.
  destruct (CiTestUrls.loop opts ((url, answer) :: combine urls answers')
              [] true) as [rs overall].
  destruct closeError;
    [split; [now right|]; split; [discriminate|];
     now intros (_ & _ & H & _)|].
  cbn [CiTestUrls.bodySuccess]. simpl snd in Hoverall.
  change ((url, answer) :: combine urls answers')
    with (combine (url :: urls) (answer :: answers')) in Hoverall.
  rewrite (forallb_combine_snd
             (fun a => negb (CiTestUrls.fails opts a))
             (url :: urls) (answer :: answers') Hlen) in Hoverall.
  rewrite andb_true_l in Hoverall. rewrite <- Hoverall.
  destruct overall; (split; [auto|]); split; auto; try discriminate.
  now intros (_ & _ & _ & _ & H).
Qed.

Lemma cli_test_urls_exit_code_witness :
  Cli.testUrlsExit
    (Some ("https://example.org/" ++ nl ++ "https://example.org/about")%string)
    (fun urls =>
       Some (CiTestUrls.handle CiInvariant.stopOptions None
               (combine urls [CiTestUrls.Analyzed Samples.noFindings;
                              CiTestUrls.Analyzed Samples.noFindings])
               None "2025-01-01T00:01:00.000Z"))
    false
  = 0.
Proof.
  apply (cli_test_urls_exit_code CiInvariant.stopOptions
           ("https://example.org/" ++ nl ++ "https://example.org/about")%string
           [CiTestUrls.Analyzed Samples.noFindings;
            CiTestUrls.Analyzed Samples.noFindings]
           None None "2025-01-01T00:01:00.000Z" false eq_refl).
  repeat split; reflexivity.
Defined.

End CliFacts.
